(** * A shallow embedding of the mini Unix shell (main.cpp)

    The development follows the source file top to bottom: character
    classes, [tokenize], [expand_env_in_token] / [expand_env],
    [parse_command], the built-ins, [run_external] and the interpreter
    loop of [main].  Strings are [string] (one [ascii] per C++ [char]);
    [std::vector<std::string>] is [list string]. *)

From Stdlib Require Import Strings.String Strings.Ascii Lists.List Bool.Bool.
From Stdlib Require Import Arith.Arith ZArith.ZArith micromega.Lia.
From Stdlib Require Import Numbers.DecimalString.
Import ListNotations.

Local Open Scope list_scope.
Local Open Scope string_scope.

(** ** Characters *)

Module Chars.

Definition dollar : ascii := "$"%char.
Definition underscore : ascii := "_"%char.
Definition backslash : ascii := "\"%char.
Definition squote : ascii := "'"%char.
Definition dquote : ascii := "034"%char.

(** The program never calls [setlocale], so the <cctype> predicates are
    those of the C locale. *)
Definition isspace (c : ascii) : bool :=
  let n := nat_of_ascii c in
  ((n =? 32) || ((9 <=? n) && (n <=? 13)))%nat.

Definition isupper (c : ascii) : bool :=
  let n := nat_of_ascii c in ((65 <=? n) && (n <=? 90))%nat.

Definition islower (c : ascii) : bool :=
  let n := nat_of_ascii c in ((97 <=? n) && (n <=? 122))%nat.

Definition isdigit (c : ascii) : bool :=
  let n := nat_of_ascii c in ((48 <=? n) && (n <=? 57))%nat.

Definition isalpha (c : ascii) : bool := isupper c || islower c.
Definition isalnum (c : ascii) : bool := isalpha c || isdigit c.

(** [std::isalpha(c) || c == '_'] : first character of a variable name. *)
Definition name_start (c : ascii) : bool :=
  isalpha c || Ascii.eqb c underscore.

(** [std::isalnum(c) || c == '_'] : later characters of a variable name. *)
Definition name_char (c : ascii) : bool :=
  isalnum c || Ascii.eqb c underscore.

End Chars.
Import Chars.

(** [s.push_back(c)] *)
Definition push_back (s : string) (c : ascii) : string :=
  s ++ String c EmptyString.

(** [s.empty()] *)
Definition empty (s : string) : bool :=
  match s with EmptyString => true | String _ _ => false end.

(** ** is_all_spaces *)

Fixpoint is_all_spaces (s : string) : bool :=
  match s with
  | EmptyString => true
  | String c rest => if negb (isspace c) then false else is_all_spaces rest
  end.

(** ** tokenize

    The [for] loop of [tokenize], with the part of the line still to be
    read ([line[i..]]) as the recursive argument.  [toks], [cur],
    [in_single] and [in_double] are the four locals of the function.  The
    only place that looks one character ahead ([i + 1 < line.size()]) is
    the backslash test in double-quote mode; it is also the only place
    that advances [i] twice. *)

Fixpoint tok_loop (toks : list string) (cur : string)
    (in_single in_double : bool) (line : string) {struct line} : list string :=
  match line with
  | EmptyString => if negb (empty cur) then (toks ++ [cur])%list else toks
  | String c rest =>
      if in_double then
        let no_escape :=
          if Ascii.eqb c dquote
          then tok_loop toks cur in_single false rest
          else tok_loop toks (push_back cur c) in_single in_double rest in
        match rest with
        | String nxt rest' =>
            if Ascii.eqb c backslash
               && (Ascii.eqb nxt dquote || Ascii.eqb nxt backslash)
            then tok_loop toks (push_back cur nxt) in_single in_double rest'
            else no_escape
        | EmptyString => no_escape
        end
      else if in_single then
        if Ascii.eqb c squote
        then tok_loop toks cur false in_double rest
        else tok_loop toks (push_back cur c) in_single in_double rest
      else if isspace c then
        if negb (empty cur)
        then tok_loop (toks ++ [cur])%list EmptyString in_single in_double rest
        else tok_loop toks cur in_single in_double rest
      else if Ascii.eqb c dquote then tok_loop toks cur in_single true rest
      else if Ascii.eqb c squote then tok_loop toks cur true in_double rest
      else tok_loop toks (push_back cur c) in_single in_double rest
  end.

Definition tokenize (line : string) : list string :=
  tok_loop [] EmptyString false false line.

(** ** The process environment

    [environ] as an association list of (name, value) pairs; [getenv]
    returns the value of the first entry with the given name, [None]
    standing for the null pointer. *)

Definition Env := list (string * string).

Fixpoint getenv (env : Env) (name : string) : option string :=
  match env with
  | [] => None
  | (k, v) :: env' => if String.eqb k name then Some v else getenv env' name
  end.

(** ** expand_env_in_token

    [expand_env_in_token env tok] is the outer loop at [i], [tok] being
    [tok[i..]]; its result is what is appended to [out] from there on.
    [scan_name] is the [while] loop that advances [j]: [var] holds
    [tok.substr(i + 1, j - (i + 1))] as read so far and [s] is [tok[j..]].
    When it stops, the value of [var] is appended unless [getenv] gave a
    null pointer, and the outer loop [resume]s at [i = j]. *)

Definition scan_name (env : Env) (resume : string -> string)
    : string -> string -> string :=
  fix scan (var : string) (s : string) {struct s} : string :=
    match s with
    | String e s' =>
        if name_char e then scan (push_back var e) s'
        else
          match getenv env var with
          | Some val => val ++ resume s
          | None => resume s
          end
    | EmptyString =>
        match getenv env var with
        | Some val => val ++ resume s
        | None => resume s
        end
    end.

Fixpoint expand_env_in_token (env : Env) (tok : string) {struct tok} : string :=
  match tok with
  | EmptyString => EmptyString
  | String c rest =>
      if Ascii.eqb c dollar then
        match rest with
        | String d rest' =>
            if name_start d
            then scan_name env (expand_env_in_token env)
                   (String d EmptyString) rest'
            else String dollar (expand_env_in_token env rest)
        | EmptyString => String dollar (expand_env_in_token env rest)
        end
      else String c (expand_env_in_token env rest)
  end.

(** [for (auto& t : tokens) t = expand_env_in_token(t);] *)
Definition expand_env (env : Env) (tokens : list string) : list string :=
  map (expand_env_in_token env) tokens.

(** ** Command and parse_command *)

Record Command := mkCommand {
  argv : list string;
  in_file : string;
  out_file : string;
  append : bool
}.

(** [Command{}] *)
Definition Command_init : Command := mkCommand [] EmptyString EmptyString false.

Definition argv_push_back (cmd : Command) (t : string) : Command :=
  mkCommand (argv cmd ++ [t])%list (in_file cmd) (out_file cmd) (append cmd).

Definition set_in_file (cmd : Command) (file : string) : Command :=
  mkCommand (argv cmd) file (out_file cmd) (append cmd).

Definition set_out_file (cmd : Command) (file : string) (app : bool) : Command :=
  mkCommand (argv cmd) (in_file cmd) file app.

(** [t == "<" || t == ">" || t == ">>"] *)
Definition is_redir (t : string) : bool :=
  (t =? "<") || (t =? ">") || (t =? ">>").

(** The two messages [parse_command] stores in [err]. *)
Definition EmptyCommand : string := "Empty command".
Definition SyntaxError (t : string) : string :=
  "Syntax error: missing file after redirection " ++ t.

(** The [for] loop of [parse_command] over [tokens[i..]].  [inr err] is
    [return false] from inside the loop with [err] set; [inl cmd] is the
    loop running to its end. *)
Fixpoint parse_loop (cmd : Command) (tokens : list string) {struct tokens}
    : Command + string :=
  match tokens with
  | [] => inl cmd
  | t :: rest =>
      if is_redir t then
        match rest with
        | [] => inr (SyntaxError t)
        | file :: rest' =>
            if t =? "<"
            then parse_loop (set_in_file cmd file) rest'
            else parse_loop (set_out_file cmd file (t =? ">>")) rest'
        end
      else parse_loop (argv_push_back cmd t) rest
  end.

(** [inl cmd] is [return true] with the out-parameter [cmd]; [inr err] is
    [return false] with the out-parameter [err] (the caller does not read
    [cmd] in that case). *)
Definition parse_command (tokens : list string) : Command + string :=
  match parse_loop Command_init tokens with
  | inl cmd =>
      match argv cmd with
      | [] => inr EmptyCommand
      | _ :: _ => inl cmd
      end
  | inr err => inr err
  end.

(** ** The operating system

    The system calls the shell makes are answered by an oracle: a [Sys]
    says, for one call of a built-in or of [run_external], which calls
    succeed and how a loaded program ends.  A program that never ends (the
    parent then blocks in [waitpid] for ever) is outside this model. *)

Inductive child_end :=
| Exited (code : Z)                 (* _exit(code), or exit / return from main *)
| Signaled (sig : Z) (core : bool). (* killed by signal [sig] *)

Record Sys := mkSys {
  fork_ok : bool;                            (* fork() >= 0 *)
  open_ok : string -> Z -> bool;             (* open(path, flags, ...) >= 0 *)
  dup2_ok : Z -> bool;                       (* dup2(fd, target) >= 0 *)
  execvp : list string -> option child_end;  (* None: execvp returns *)
  waitpid_ok : bool;                         (* waitpid(pid, &status, 0) >= 0 *)
  chdir_ok : string -> bool;                 (* chdir(path) == 0 *)
  getcwd : option string                     (* None: getcwd returns NULL *)
}.

(** Constants of <fcntl.h> and <unistd.h> on Linux. *)
Definition O_RDONLY : Z := 0%Z.
Definition O_WRONLY : Z := 1%Z.
Definition O_CREAT : Z := 64%Z.
Definition O_TRUNC : Z := 512%Z.
Definition O_APPEND : Z := 1024%Z.
Definition STDIN_FILENO : Z := 0%Z.
Definition STDOUT_FILENO : Z := 1%Z.

(** The wait status the kernel stores for a terminated child, and the
    macros of <sys/wait.h> that read it (glibc). *)
Definition wait_status (e : child_end) : Z :=
  match e with
  | Exited code => Z.shiftl (Z.land code 255) 8
  | Signaled sig core => Z.lor (Z.land sig 127) (if core then 128 else 0)
  end%Z.

Definition WIFEXITED (status : Z) : bool := (Z.land status 127 =? 0)%Z.
Definition WEXITSTATUS (status : Z) : Z := Z.shiftr (Z.land status 65280) 8.

(** ** Built-ins

    Each function returns its [int] result and the calls it makes, in
    order.  [SysPerror tag] is [perror(tag)]. *)

Inductive syscall :=
| SysFork
| SysWaitpid
| SysChdir (path : string)
| SysGetcwd
| SysStdout (text : string)
| SysPerror (tag : string).

Definition newline : string := String "010"%char EmptyString.

Definition help_text : string :=
  "Builtins:" ++ newline ++
  "  cd [path]    Change directory (cd without args goes to $HOME)" ++ newline ++
  "  pwd          Print current directory" ++ newline ++
  "  history      Show command history (in-memory)" ++ newline ++
  "  help         Show this help" ++ newline ++
  "  exit         Exit shell" ++ newline ++
  newline ++ "Redirections:" ++ newline ++
  "  cmd > out.txt     overwrite output" ++ newline ++
  "  cmd >> out.txt    append output" ++ newline ++
  "  cmd < in.txt      read input from file" ++ newline.

Definition builtin_cd (env : Env) (sys : Sys) (argv : list string)
    : Z * list syscall :=
  let path :=
    match argv with
    | _ :: p :: _ => p                       (* argv.size() >= 2 *)
    | _ =>
        match getenv env "HOME" with
        | Some home => home
        | None => "/"
        end
    end in
  if negb (chdir_ok sys path)
  then (1%Z, [SysChdir path; SysPerror "cd"])
  else (0%Z, [SysChdir path]).

Definition builtin_pwd (sys : Sys) : Z * list syscall :=
  match getcwd sys with
  | None => (1%Z, [SysGetcwd; SysPerror "pwd"])
  | Some buf => (0%Z, [SysGetcwd; SysStdout (buf ++ newline)])
  end.

Definition is_builtin (name : string) : bool :=
  (name =? "cd") || (name =? "pwd") || (name =? "exit") || (name =? "help")
  || (name =? "history").

(** ** run_external

    [child] is the branch [pid == 0]: it ends in [_exit(127)] or in the
    program that [execvp] loads.  An empty [in_file] / [out_file] means
    that no redirection was given. *)

Definition child (sys : Sys) (cmd : Command) : child_end :=
  let load :=
    match execvp sys (argv cmd) with
    | Some e => e
    | None => Exited 127         (* perror("execvp"); _exit(127) *)
    end in
  let output :=
    if negb (empty (out_file cmd)) then
      let flags :=
        Z.lor (Z.lor O_WRONLY O_CREAT)
              (if append cmd then O_APPEND else O_TRUNC) in
      if negb (open_ok sys (out_file cmd) flags) then Exited 127
      else if negb (dup2_ok sys STDOUT_FILENO) then Exited 127
      else load
    else load in
  if negb (empty (in_file cmd)) then
    if negb (open_ok sys (in_file cmd) O_RDONLY) then Exited 127
    else if negb (dup2_ok sys STDIN_FILENO) then Exited 127
    else output
  else output.

Definition run_external (sys : Sys) (cmd : Command) : Z * list syscall :=
  if negb (fork_ok sys) then (1%Z, [SysFork; SysPerror "fork"])
  else
    let status := wait_status (child sys cmd) in
    if negb (waitpid_ok sys) then (1%Z, [SysFork; SysWaitpid; SysPerror "waitpid"])
    else
      (if WIFEXITED status then WEXITSTATUS status else 1%Z,
       [SysFork; SysWaitpid]).

(** ** main

    Standard input is the list of the lines [getline] will return; the
    end of the list is end of input.  One iteration of the [while] loop is
    [process_line]: it returns the history at the end of the iteration
    and what was done with the line, an [outcome].  The prompt is not
    modelled.  Nothing the loop calls changes the environment, so [env]
    is the same in every iteration. *)

(** [history.push_back(line); if (history.size() > 200) history.erase(history.begin());] *)
Definition history_push (history : list string) (line : string) : list string :=
  let history := (history ++ [line])%list in
  if (200 <? List.length history)%nat then tl history else history.

Definition string_of_nat (n : nat) : string :=
  NilZero.string_of_uint (Nat.to_uint n).

(** The loop of the [history] built-in from index [i] on, [history] being
    the entries from [i] on; the result is the text sent to [std::cout]. *)
Fixpoint print_history (i : nat) (history : list string) : string :=
  match history with
  | [] => EmptyString
  | entry :: rest =>
      string_of_nat (i + 1) ++ "  " ++ entry ++ newline
      ++ print_history (S i) rest
  end.

(** What [main] does with a parsed command. *)
Inductive action :=
| ActExit                          (* break *)
| ActCd (args : list string)       (* builtin_cd(cmd.argv) *)
| ActPwd                           (* builtin_pwd() *)
| ActHelp                          (* print_help() *)
| ActHistory (text : string)       (* the listing loop *)
| ActExternal (cmd : Command).     (* run_external(cmd) *)

(** The [if] chain on [name = cmd.argv[0]].  [parse_command] returns no
    command with an empty [argv], so the default of [hd] is never used. *)
Definition dispatch (history : list string) (cmd : Command) : action :=
  let name := hd EmptyString (argv cmd) in
  if name =? "exit" then ActExit
  else if name =? "cd" then ActCd (argv cmd)
  else if name =? "pwd" then ActPwd
  else if name =? "help" then ActHelp
  else if name =? "history" then ActHistory (print_history 0 history)
  else ActExternal cmd.

(** The calls an action makes; [main] drops the [int] results. *)
Definition perform (env : Env) (sys : Sys) (a : action) : list syscall :=
  match a with
  | ActExit => []
  | ActCd args => snd (builtin_cd env sys args)
  | ActPwd => snd (builtin_pwd sys)
  | ActHelp => [SysStdout help_text]
  | ActHistory text => [SysStdout text]
  | ActExternal cmd => snd (run_external sys cmd)
  end.

Inductive outcome :=
| Blank                        (* is_all_spaces(line): continue *)
| Rejected (stderr : string)   (* parse_command failed; text sent to std::cerr *)
| Ran (a : action).

Definition process_line (env : Env) (history : list string) (line : string)
    : list string * outcome :=
  if is_all_spaces line then (history, Blank)
  else
    match parse_command (expand_env env (tokenize line)) with
    | inr err =>
        (history,
         Rejected (if negb (err =? "Empty command") then err ++ newline
                   else EmptyString))
    | inl cmd =>
        let history := history_push history line in
        (history, Ran (dispatch history cmd))
    end.

(** The [while] loop, as the trace of its iterations: for each line read,
    the history at the end of the iteration and what was done with the
    line.  The loop ends at the end of input or after an [exit]. *)
Fixpoint main_loop (env : Env) (history : list string) (stdin : list string)
    : list (list string * outcome) :=
  match stdin with
  | [] => []
  | line :: stdin' =>
      let r := process_line env history line in
      match snd r with
      | Ran ActExit => [r]
      | _ => r :: main_loop env (fst r) stdin'
      end
  end.

(** [main]: the history starts empty. *)
Definition main (env : Env) (stdin : list string)
    : list (list string * outcome) :=
  main_loop env [] stdin.

(** ** Vocabulary of the properties *)

(** Every character of [s] satisfies [p]. *)
Fixpoint all_chars (p : ascii -> bool) (s : string) : bool :=
  match s with
  | EmptyString => true
  | String c rest => p c && all_chars p rest
  end.

(** The first character of [s], if there is one, satisfies [p]. *)
Definition head_is (p : ascii -> bool) (s : string) : bool :=
  match s with
  | EmptyString => false
  | String c _ => p c
  end.

(** The value substituted for [$name]: that of the environment, nothing
    when the name is unset. *)
Definition value_of (env : Env) (name : string) : string :=
  match getenv env name with
  | Some val => val
  | None => EmptyString
  end.

(** A character that the tokenizer copies to the current token in every
    mode: no white space, no quote, no backslash. *)
Definition plain_char (c : ascii) : bool :=
  negb (isspace c) && negb (Ascii.eqb c squote) && negb (Ascii.eqb c dquote)
  && negb (Ascii.eqb c backslash).

(** How the parser reads a token list: an argument, or a redirection
    operator together with the token after it. *)
Inductive item :=
| Arg (t : string)
| Redir (op file : string).

Definition item_ok (it : item) : bool :=
  match it with
  | Arg t => negb (is_redir t)
  | Redir op _ => is_redir op
  end.

Definition item_tokens (it : item) : list string :=
  match it with
  | Arg t => [t]
  | Redir op file => [op; file]
  end.

Definition flatten (items : list item) : list string :=
  flat_map item_tokens items.

Definition args_of (items : list item) : list string :=
  flat_map (fun it => match it with Arg t => [t] | Redir _ _ => [] end) items.

(** What reading one item does to the command under construction. *)
Definition apply_item (cmd : Command) (it : item) : Command :=
  match it with
  | Arg t => argv_push_back cmd t
  | Redir op file =>
      if op =? "<" then set_in_file cmd file
      else set_out_file cmd file (op =? ">>")
  end.

(** [it] is a redirection of the same stream as the operator [op]: the
    input for [<], the output for [>] and [>>]. *)
Definition same_stream (op : string) (it : item) : bool :=
  match it with
  | Arg _ => false
  | Redir op' _ => Bool.eqb (op =? "<") (op' =? "<")
  end.

(** The last [n] elements of a list. *)
Definition lastn {A : Type} (n : nat) (l : list A) : list A :=
  skipn (List.length l - n) l.

(** The line parses into a command. *)
Definition parse_ok (env : Env) (line : string) : bool :=
  match parse_command (expand_env env (tokenize line)) with
  | inl _ => true
  | inr _ => false
  end.

(** The history after the loop has read [lines], starting from [history]. *)
Definition history_after (env : Env) (history : list string)
    (lines : list string) : list string :=
  fold_left (fun h line => fst (process_line env h line)) lines history.

(** One line of the listing: the number, two spaces, the entry. *)
Definition history_entry (n : nat) (entry : string) : string :=
  string_of_nat n ++ "  " ++ entry ++ newline.

(** The entries numbered from 1, one per line. *)
Definition listing (entries : list string) : string :=
  fold_right String.append EmptyString
    (map (fun p => history_entry (fst p) (snd p))
         (combine (seq 1 (List.length entries)) entries)).

(** ** Concrete inputs *)

(** 201 lines that all parse, the last one asking for the listing. *)
Definition stdin_201 : list string :=
  ("echo first" :: repeat "pwd" 199 ++ ["history"])%list.

(** An operating system in which [fork] fails. *)
Definition sys_no_fork : Sys :=
  mkSys false (fun _ _ => true) (fun _ => true)
        (fun _ => Some (Exited 0)) true (fun _ => true) (Some "/").

(** An operating system in which every call succeeds, files other than
    [missing] can be opened, [ls] ends with status 2, [sleep] is killed
    by signal 9, and no other program can be loaded. *)
Definition sys_demo : Sys :=
  mkSys true (fun path _ => negb (path =? "missing")) (fun _ => true)
        (fun args =>
           match args with
           | name :: _ =>
               if name =? "ls" then Some (Exited 2)
               else if name =? "sleep" then Some (Signaled 9 false)
               else None
           | [] => None
           end)
        true (fun _ => true) (Some "/").

(** ** The calls of the child

    The branch [pid == 0] of [run_external] once more, this time as the
    sequence of calls the child makes, in order.  [COpen] carries the
    creation mode when [open] is given one (0644 is 420).  A trace that
    ends in [CExecvp] is a child that goes on as the loaded program. *)

Inductive child_call :=
| COpen (path : string) (flags : Z) (mode : option Z)
| CDup2 (target : Z)
| CClose
| CPerror (tag : string)
| CExecvp (args : list string)
| CExit (code : Z).

Definition child_calls (sys : Sys) (cmd : Command) : list child_call :=
  let load :=
    CExecvp (argv cmd)
    :: match execvp sys (argv cmd) with
       | Some _ => []
       | None => [CPerror "execvp"; CExit 127]
       end in
  let output :=
    if negb (empty (out_file cmd)) then
      let flags :=
        Z.lor (Z.lor O_WRONLY O_CREAT)
              (if append cmd then O_APPEND else O_TRUNC) in
      COpen (out_file cmd) flags (Some 420%Z)
      :: (if negb (open_ok sys (out_file cmd) flags)
          then [CPerror "open >"; CExit 127]
          else
            CDup2 STDOUT_FILENO
            :: (if negb (dup2_ok sys STDOUT_FILENO)
                then [CPerror "dup2 >"; CExit 127]
                else CClose :: load))
    else load in
  if negb (empty (in_file cmd)) then
    COpen (in_file cmd) O_RDONLY None
    :: (if negb (open_ok sys (in_file cmd) O_RDONLY)
        then [CPerror "open <"; CExit 127]
        else
          CDup2 STDIN_FILENO
          :: (if negb (dup2_ok sys STDIN_FILENO)
              then [CPerror "dup2 <"; CExit 127]
              else CClose :: output))
  else output.

(** ** More vocabulary *)

(** The characters of all the tokens, one after the other. *)
Definition join (tokens : list string) : string :=
  fold_right String.append EmptyString tokens.

(** The number of characters in all the tokens. *)
Definition total_length (tokens : list string) : nat :=
  fold_right (fun t n => (String.length t + n)%nat) 0%nat tokens.

(** The characters of [s] that satisfy [p], in order. *)
Fixpoint string_filter (p : ascii -> bool) (s : string) : string :=
  match s with
  | EmptyString => EmptyString
  | String c rest =>
      if p c then String c (string_filter p rest) else string_filter p rest
  end.

Definition not_space (c : ascii) : bool := negb (isspace c).

Definition not_quote (c : ascii) : bool :=
  negb (Ascii.eqb c squote) && negb (Ascii.eqb c dquote).

Definition not_squote (c : ascii) : bool := negb (Ascii.eqb c squote).

Definition not_dollar (c : ascii) : bool := negb (Ascii.eqb c dollar).

(** The longest run of name characters at the start of [s], and what
    follows it. *)
Fixpoint name_prefix (s : string) : string :=
  match s with
  | EmptyString => EmptyString
  | String c rest =>
      if name_char c then String c (name_prefix rest) else EmptyString
  end.

Fixpoint name_suffix (s : string) : string :=
  match s with
  | EmptyString => EmptyString
  | String c rest => if name_char c then name_suffix rest else s
  end.

(** Reading in double-quote mode, in the words of the specification:
    the text that the characters of [s] add to the current token up to
    the first double quote that is not escaped, and what follows that
    quote ([None] when there is no such quote).  A backslash before a
    double quote or a backslash stands for that second character; any
    other backslash stands for itself. *)
Fixpoint dq_span (s : string) : string * option string :=
  match s with
  | EmptyString => (EmptyString, None)
  | String c rest =>
      if Ascii.eqb c backslash then
        match rest with
        | String q rest' =>
            if Ascii.eqb q dquote || Ascii.eqb q backslash
            then (String q (fst (dq_span rest')), snd (dq_span rest'))
            else (String backslash (fst (dq_span rest)), snd (dq_span rest))
        | EmptyString => (String backslash EmptyString, None)
        end
      else if Ascii.eqb c dquote then (EmptyString, Some rest)
      else (String c (fst (dq_span rest)), snd (dq_span rest))
  end.

(** Writing a text for the inside of double quotes: a backslash before
    every double quote and every backslash. *)
Fixpoint dq_escape (w : string) : string :=
  match w with
  | EmptyString => EmptyString
  | String c rest =>
      if Ascii.eqb c dquote || Ascii.eqb c backslash
      then String backslash (String c (dq_escape rest))
      else String c (dq_escape rest)
  end.

(** The line parses into a command whose [argv[0]] is [exit]. *)
Definition is_exit_line (env : Env) (line : string) : bool :=
  match parse_command (expand_env env (tokenize line)) with
  | inl cmd => hd EmptyString (argv cmd) =? "exit"
  | inr _ => false
  end.

(** * Properties *)

(** ** Strings *)

Lemma append_nil_r (s : string) : s ++ EmptyString = s.
Proof. induction s as [|c s IH]; simpl; [reflexivity | now rewrite IH]. Qed.

Lemma append_assoc (s1 s2 s3 : string) : (s1 ++ s2) ++ s3 = s1 ++ (s2 ++ s3).
Proof. induction s1 as [|c s1 IH]; simpl; [reflexivity | now rewrite IH]. Qed.

Lemma push_back_append (s : string) (c : ascii) (r : string) :
  push_back s c ++ r = s ++ String c r.
Proof. unfold push_back. now rewrite append_assoc. Qed.

(** ** The tokenizer *)

Lemma tok_loop_end (toks : list string) (cur : string)
    (in_single in_double : bool) :
  tok_loop toks cur in_single in_double EmptyString
  = if empty cur then toks else (toks ++ [cur])%list.
Proof. simpl. now destruct (empty cur). Qed.

(** The tokenizer in double-quote mode reads what [dq_span] says. *)
Lemma tok_loop_dq_span (line : string) :
  forall toks cur in_single,
    tok_loop toks cur in_single true line
    = match snd (dq_span line) with
      | Some rest =>
          tok_loop toks (cur ++ fst (dq_span line)) in_single false rest
      | None =>
          if empty (cur ++ fst (dq_span line)) then toks
          else (toks ++ [(cur ++ fst (dq_span line))%string])%list
      end.
Proof.
  assert (G : forall n line toks cur in_single,
             (String.length line <= n)%nat ->
             tok_loop toks cur in_single true line
             = match snd (dq_span line) with
               | Some rest =>
                   tok_loop toks (cur ++ fst (dq_span line)) in_single false
                     rest
               | None =>
                   if empty (cur ++ fst (dq_span line)) then toks
                   else (toks ++ [(cur ++ fst (dq_span line))%string])%list
               end).
  { induction n as [|n IH]; intros l toks cur s Hlen.
    - destruct l; [|simpl in Hlen; lia].
      cbn [dq_span fst snd]. rewrite append_nil_r. apply tok_loop_end.
    - destruct l as [|c rest].
      + cbn [dq_span fst snd]. rewrite append_nil_r. apply tok_loop_end.
      + cbn [String.length] in Hlen. cbn [tok_loop dq_span]. cbv zeta.
        destruct (Ascii.eqb c backslash) eqn:Eb.
        * apply Ascii.eqb_eq in Eb. subst c.
          replace (Ascii.eqb backslash dquote) with false by reflexivity.
          destruct rest as [|q rest'].
          -- cbn [andb fst snd]. rewrite tok_loop_end.
             unfold push_back. reflexivity.
          -- cbn [andb]. cbn [String.length] in Hlen.
             destruct (Ascii.eqb q dquote || Ascii.eqb q backslash).
             ++ cbn [fst snd]. rewrite IH by lia.
                now rewrite push_back_append.
             ++ cbn [fst snd]. rewrite IH by (cbn [String.length]; lia).
                now rewrite push_back_append.
        * cbn [andb].
          assert (E : match rest with
                      | EmptyString | _ =>
                          if Ascii.eqb c dquote
                          then tok_loop toks cur s false rest
                          else tok_loop toks (push_back cur c) s true rest
                      end
                      = if Ascii.eqb c dquote
                        then tok_loop toks cur s false rest
                        else tok_loop toks (push_back cur c) s true rest)
            by (destruct rest; reflexivity).
          rewrite E. clear E.
          destruct (Ascii.eqb c dquote).
          -- cbn [fst snd]. now rewrite append_nil_r.
          -- cbn [fst snd]. rewrite IH by lia.
             now rewrite push_back_append. }
  intros toks cur in_single. apply (G (String.length line)). lia.
Qed.

(** C3.  In double-quote mode, whatever the tokens and the current token
    collected so far.  Character by character: a backslash followed by a
    double quote or by a backslash consumes both characters and appends
    the second one; a backslash followed by another character, or ending
    the line, is appended as it is and the next character is left to be
    read; a double quote leaves the mode and appends nothing; every other
    character is appended.  At the end of the line the current token,
    unless empty, is the last token.  Hence for a whole line: the text
    read up to the first unescaped double quote ([dq_span]) is appended
    to the current token; without such a quote, or with nothing after
    it, the result is the tokens so far followed by that token. *)
Theorem tokenize_double_quote_mode :
  forall (toks : list string) (cur : string) (in_single : bool),
    (forall q rest, q = dquote \/ q = backslash ->
       tok_loop toks cur in_single true (String backslash (String q rest))
       = tok_loop toks (cur ++ String q EmptyString) in_single true rest)
    /\ (forall d rest, d <> dquote -> d <> backslash ->
          tok_loop toks cur in_single true (String backslash (String d rest))
          = tok_loop toks (cur ++ String backslash EmptyString) in_single true
              (String d rest))
    /\ tok_loop toks cur in_single true (String backslash EmptyString)
       = (toks ++ [(cur ++ String backslash EmptyString)%string])%list
    /\ (forall rest,
          tok_loop toks cur in_single true (String dquote rest)
          = tok_loop toks cur in_single false rest)
    /\ (forall c rest, c <> dquote -> c <> backslash ->
          tok_loop toks cur in_single true (String c rest)
          = tok_loop toks (cur ++ String c EmptyString) in_single true rest)
    /\ tok_loop toks cur in_single true EmptyString
       = (if empty cur then toks else (toks ++ [cur])%list)
    /\ (forall line text,
          dq_span line = (text, None) \/ dq_span line = (text, Some EmptyString) ->
          tok_loop toks cur in_single true line
          = if empty (cur ++ text) then toks
            else (toks ++ [(cur ++ text)%string])%list)
    /\ (forall line text rest,
          dq_span line = (text, Some rest) ->
          tok_loop toks cur in_single true line
          = tok_loop toks (cur ++ text) in_single false rest).
Proof.
  intros toks cur in_single.
  split; [|split; [|split; [|split; [|split; [|split; [|split]]]]]].
  - intros q rest [-> | ->]; reflexivity.
  - intros d rest Hq Hb. cbn [tok_loop].
    apply Ascii.eqb_neq in Hq, Hb. rewrite Hq, Hb. reflexivity.
  - cbn. unfold push_back. now destruct cur.
  - intros rest. destruct rest; reflexivity.
  - intros c rest Hq Hb. cbn [tok_loop].
    apply Ascii.eqb_neq in Hq, Hb. rewrite Hq, Hb.
    destruct rest; reflexivity.
  - apply tok_loop_end.
  - intros line text [H | H]; rewrite tok_loop_dq_span, H; cbn [fst snd];
      [reflexivity | apply tok_loop_end].
  - intros line text rest H. rewrite tok_loop_dq_span, H. reflexivity.
Qed.

Lemma tokenize_double_quote_mode_witness :
  tok_loop ["echo"] "a" false true (String backslash (String dquote "b"))
  = tok_loop ["echo"] ("a" ++ String dquote EmptyString) false true "b"
  /\ tok_loop ["echo"] "a" false true (String backslash "nb")
     = tok_loop ["echo"] ("a" ++ String backslash EmptyString) false true "nb"
  /\ tok_loop ["echo"] "a" false true "xb"
     = tok_loop ["echo"] ("a" ++ String "x" EmptyString) false true "b"
  /\ tok_loop ["echo"] "a" false true
       (String backslash (String dquote ("b\\c\d" ++ String dquote EmptyString)))
     = ["echo"; "a" ++ String dquote "b\c\d"]
  /\ tok_loop ["echo"] "a" false true ("b c\" ++ String dquote "d e")
     = ["echo"; "ab c" ++ String dquote "d e"]
  /\ tok_loop ["echo"] "a" false true ("b" ++ String dquote "c d")
     = tok_loop ["echo"] ("a" ++ "b") false false "c d".
Proof.
  destruct (tokenize_double_quote_mode ["echo"] "a" false)
    as (Hesc & Hlit & _ & _ & Hother & _ & Hall & Hexit).
  split; [|split; [|split; [|split; [|split]]]].
  - apply (Hesc dquote "b"). left. reflexivity.
  - apply (Hlit "n"%char "b"); discriminate.
  - apply (Hother "x"%char "b"); discriminate.
  - apply (Hall _ (String dquote "b\c\d")). right. reflexivity.
  - apply (Hall _ ("b c" ++ String dquote "d e")). left. reflexivity.
  - apply (Hexit _ "b" "c d"). reflexivity.
Defined.

(** The tokenizer examples of the specification: a double-quoted word
    with a space, a double quote inside single quotes, and an escaped
    double quote inside double quotes. *)
Example tokenize_examples :
  tokenize ("echo " ++ String dquote ("hello world" ++ String dquote EmptyString))
  = ["echo"; "hello world"]
  /\ tokenize ("echo 'a" ++ String dquote "b'")
     = ["echo"; "a" ++ String dquote "b"]
  /\ tokenize ("echo " ++ String dquote ("a\" ++ String dquote
                                          ("b" ++ String dquote EmptyString)))
     = ["echo"; "a" ++ String dquote "b"]
  /\ tokenize "  " = [].
Proof. repeat split. Qed.

(** ** The environment expander *)

Section Expander.

Variable env : Env.

Lemma scan_name_spec (resume : string -> string) :
  forall name var rem,
    all_chars name_char name = true ->
    head_is name_char rem = false ->
    scan_name env resume var (name ++ rem)
    = value_of env (var ++ name) ++ resume rem.
Proof.
  induction name as [|e name IH]; intros var rem Hname Hrem.
  - rewrite append_nil_r. unfold value_of. simpl.
    destruct rem as [|c rem]; simpl in *.
    + destruct (getenv env var); reflexivity.
    + rewrite Hrem. destruct (getenv env var); reflexivity.
  - simpl in Hname. apply andb_true_iff in Hname as [He Hname].
    simpl. rewrite He. rewrite (IH _ _ Hname Hrem).
    now rewrite push_back_append.
Qed.

Lemma expand_reference (d : ascii) (name rem : string) :
  name_start d = true ->
  all_chars name_char name = true ->
  head_is name_char rem = false ->
  expand_env_in_token env (String dollar (String d (name ++ rem)))
  = value_of env (String d name) ++ expand_env_in_token env rem.
Proof.
  intros Hd Hname Hrem. cbn [expand_env_in_token].
  replace (Ascii.eqb dollar dollar) with true by reflexivity.
  rewrite Hd. now rewrite scan_name_spec.
Qed.

Lemma expand_lone_dollar (rest : string) :
  head_is name_start rest = false ->
  expand_env_in_token env (String dollar rest)
  = String dollar (expand_env_in_token env rest).
Proof.
  intros H. destruct rest as [|d rest]; [reflexivity|].
  simpl in H. cbn [expand_env_in_token].
  replace (Ascii.eqb dollar dollar) with true by reflexivity.
  now rewrite H.
Qed.

Lemma expand_other (c : ascii) (rest : string) :
  c <> dollar ->
  expand_env_in_token env (String c rest)
  = String c (expand_env_in_token env rest).
Proof.
  intros H. apply Ascii.eqb_neq in H. cbn [expand_env_in_token].
  now rewrite H.
Qed.

Lemma expand_env_length (tokens : list string) :
  List.length (expand_env env tokens) = List.length tokens.
Proof. apply length_map. Qed.

Lemma expand_env_nth (tokens : list string) (i : nat) :
  nth_error (expand_env env tokens) i
  = option_map (expand_env_in_token env) (nth_error tokens i).
Proof. apply nth_error_map. Qed.

End Expander.

(** C5.  Per-token expansion: a [$] followed by a letter or underscore
    and then by the longest run of letters, digits and underscores
    ([name] is such a run and [rem] does not go on with one more such
    character) is replaced by the value of that name, the empty string
    when the name is unset; a [$] not followed by a name-start character
    is copied; every other character is copied.  [expand_env] transforms
    a token list element by element, keeping order and length.  The three
    examples of the specification hold. *)
Theorem expand_env_spec :
  forall env : Env,
    (forall d name rem,
        name_start d = true ->
        all_chars name_char name = true ->
        head_is name_char rem = false ->
        expand_env_in_token env (String dollar (String d (name ++ rem)))
        = value_of env (String d name) ++ expand_env_in_token env rem)
    /\ (forall rest,
          head_is name_start rest = false ->
          expand_env_in_token env (String dollar rest)
          = String dollar (expand_env_in_token env rest))
    /\ (forall c rest,
          c <> dollar ->
          expand_env_in_token env (String c rest)
          = String c (expand_env_in_token env rest))
    /\ (forall tokens,
          List.length (expand_env env tokens) = List.length tokens
          /\ forall i,
               nth_error (expand_env env tokens) i
               = option_map (expand_env_in_token env) (nth_error tokens i))
    /\ (getenv env "HOME" = Some "/home/u" ->
        expand_env env ["$HOME/x"] = ["/home/u/x"])
    /\ (getenv env "FOO" = None ->
        expand_env env ["$FOO"] = [EmptyString])
    /\ expand_env env ["$"] = ["$"].
Proof.
  intros env. split; [|split; [|split; [|split; [|split; [|split]]]]].
  - apply expand_reference.
  - apply expand_lone_dollar.
  - apply expand_other.
  - intros tokens. split; [apply expand_env_length | apply expand_env_nth].
  - intros H. unfold expand_env. cbn [map]. f_equal.
    change "$HOME/x" with (String dollar (String "H" ("OME" ++ "/x"))).
    rewrite expand_reference by reflexivity.
    unfold value_of. rewrite H. reflexivity.
  - intros H. unfold expand_env. cbn [map]. f_equal.
    change "$FOO" with (String dollar (String "F" ("OO" ++ EmptyString))).
    rewrite expand_reference by reflexivity.
    unfold value_of. rewrite H. reflexivity.
  - reflexivity.
Qed.

Lemma expand_env_spec_witness :
  expand_env_in_token [("HOME", "/home/u")] "$HOME/x" = "/home/u/x"
  /\ expand_env_in_token [("HOME", "/home/u")] "$1" = "$1"
  /\ expand_env_in_token [("HOME", "/home/u")] "a$" = "a$"
  /\ expand_env [("HOME", "/home/u")] ["$HOME/x"] = ["/home/u/x"]
  /\ expand_env [("HOME", "/home/u")] ["$FOO"] = [EmptyString].
Proof.
  destruct (expand_env_spec [("HOME", "/home/u")])
    as (Href & Hlone & Hother & _ & Hhome & Hfoo & _).
  split; [|split; [|split; [|split]]].
  - apply (Href "H"%char "OME" "/x"); reflexivity.
  - apply (Hlone "1"). reflexivity.
  - apply (Hother "a"%char "$"). discriminate.
  - apply Hhome. reflexivity.
  - apply Hfoo. reflexivity.
Defined.




(** ** Quoting and expansion *)



(** Plain characters are appended to the current token in every mode. *)
Lemma tok_loop_plain (w : string) :
  forall toks cur in_single in_double rest,
    all_chars plain_char w = true ->
    tok_loop toks cur in_single in_double (w ++ rest)
    = tok_loop toks (cur ++ w) in_single in_double rest.
Proof.
  induction w as [|c w IH]; intros toks cur in_single in_double rest H.
  - now rewrite append_nil_r.
  - simpl in H. apply andb_true_iff in H as [Hc Hw].
    unfold plain_char in Hc.
    repeat (apply andb_true_iff in Hc as [Hc ?]).
    repeat match goal with
           | E : negb _ = true |- _ => apply negb_true_iff in E
           end.
    rewrite <- push_back_append. rewrite <- (IH _ _ _ _ _ Hw).
    cbn [String.append tok_loop]. cbv zeta.
    repeat match goal with
           | E : _ = false |- _ => rewrite E; clear E
           end.
    destruct in_double, in_single; simpl; try reflexivity;
      destruct (w ++ rest); reflexivity.
Qed.

Lemma tok_loop_single_quoted (w : string) toks cur rest :
  all_chars plain_char w = true ->
  tok_loop toks cur false false (String squote (w ++ String squote rest))
  = tok_loop toks cur false false (w ++ rest).
Proof.
  intros H. rewrite (tok_loop_plain w toks cur false false rest H).
  change (tok_loop toks cur false false (String squote (w ++ String squote rest)))
    with (tok_loop toks cur true false (w ++ String squote rest)).
  rewrite (tok_loop_plain w toks cur true false _ H). reflexivity.
Qed.

Lemma tok_loop_double_quoted (w : string) toks cur rest :
  all_chars plain_char w = true ->
  tok_loop toks cur false false (String dquote (w ++ String dquote rest))
  = tok_loop toks cur false false (w ++ rest).
Proof.
  intros H. rewrite (tok_loop_plain w toks cur false false rest H).
  change (tok_loop toks cur false false (String dquote (w ++ String dquote rest)))
    with (tok_loop toks cur false true (w ++ String dquote rest)).
  rewrite (tok_loop_plain w toks cur false true _ H).
  destruct rest; reflexivity.
Qed.



(** ** The parser *)

Lemma parse_loop_items (items : list item) :
  forall cmd rest,
    forallb item_ok items = true ->
    parse_loop cmd (flatten items ++ rest)%list
    = parse_loop (fold_left apply_item items cmd) rest.
Proof.
  induction items as [|it items IH]; intros cmd rest H; [reflexivity|].
  simpl in H. apply andb_true_iff in H as [Hit H].
  destruct it as [t | op file]; simpl in Hit.
  - apply negb_true_iff in Hit. simpl. rewrite Hit. now apply IH.
  - simpl. rewrite Hit. destruct (op =? "<"); now apply IH.
Qed.

Lemma fold_apply_item_argv (items : list item) :
  forall cmd,
    argv (fold_left apply_item items cmd) = (argv cmd ++ args_of items)%list.
Proof.
  induction items as [|it items IH]; intros cmd; simpl.
  - now rewrite app_nil_r.
  - rewrite IH. destruct it as [t | op file]; simpl.
    + now rewrite <- app_assoc.
    + destruct (op =? "<"); reflexivity.
Qed.

Lemma parse_command_items (items : list item) :
  forallb item_ok items = true ->
  parse_command (flatten items)
  = match args_of items with
    | [] => inr EmptyCommand
    | _ :: _ => inl (fold_left apply_item items Command_init)
    end.
Proof.
  intros H. unfold parse_command.
  rewrite <- (app_nil_r (flatten items)).
  rewrite (parse_loop_items items Command_init [] H). simpl.
  rewrite fold_apply_item_argv. reflexivity.
Qed.

Lemma parse_command_missing_operand (items : list item) (op : string) :
  forallb item_ok items = true ->
  is_redir op = true ->
  parse_command (flatten items ++ [op]) = inr (SyntaxError op).
Proof.
  intros H Hop. unfold parse_command.
  rewrite (parse_loop_items items Command_init [op] H). simpl.
  now rewrite Hop.
Qed.

(** Every token list is a sequence of items, possibly followed by one
    operator that has no operand. *)
Lemma tokens_are_items (tokens : list string) :
  exists items,
    forallb item_ok items = true
    /\ (tokens = flatten items
        \/ exists op, is_redir op = true /\ tokens = (flatten items ++ [op])%list).
Proof.
  assert (G : forall n toks, (List.length toks <= n)%nat ->
              exists items,
                forallb item_ok items = true
                /\ (toks = flatten items
                    \/ exists op, is_redir op = true
                                  /\ toks = (flatten items ++ [op])%list)).
  { induction n as [|n IH]; intros toks Hlen.
    - destruct toks; [|simpl in Hlen; lia].
      exists []. split; [reflexivity | left; reflexivity].
    - destruct toks as [|t toks].
      + exists []. split; [reflexivity | left; reflexivity].
      + destruct (is_redir t) eqn:Ht.
        * destruct toks as [|file toks].
          -- exists []. split; [reflexivity|].
             right. exists t. split; [assumption | reflexivity].
          -- destruct (IH toks) as (items & Hok & Hshape);
               [simpl in Hlen; lia|].
             exists (Redir t file :: items). split.
             ++ simpl. now rewrite Ht.
             ++ destruct Hshape as [-> | (op & Hop & ->)].
                ** left. reflexivity.
                ** right. exists op. split; [assumption | reflexivity].
        * destruct (IH toks) as (items & Hok & Hshape);
            [simpl in Hlen; lia|].
          exists (Arg t :: items). split.
          -- simpl. now rewrite Ht.
          -- destruct Hshape as [-> | (op & Hop & ->)].
             ++ left. reflexivity.
             ++ right. exists op. split; [assumption | reflexivity]. }
  apply (G (List.length tokens)). lia.
Qed.

Lemma SyntaxError_not_EmptyCommand (op : string) :
  (SyntaxError op =? "Empty command") = false.
Proof. reflexivity. Qed.

Lemma process_line_rejects (env : Env) (history : list string) (line err : string) :
  is_all_spaces line = false ->
  parse_command (expand_env env (tokenize line)) = inr err ->
  process_line env history line
  = (history,
     Rejected (if negb (err =? "Empty command") then err ++ newline
               else EmptyString)).
Proof.
  intros Hsp Hparse. unfold process_line. now rewrite Hsp, Hparse.
Qed.

(** C4, as the code has it.  The parser reads a token list as a sequence
    of items: a token equal to an operator, when the scan reaches it,
    takes the next token as its file name whatever that token is (also
    when it is itself equal to an operator); any other token is an
    argument.  Every token list is such a sequence, possibly followed by
    one operator without operand.  (1) With such a final operator the
    parser fails with the SyntaxError that names it.  (2) Otherwise argv
    is exactly the arguments, in order: no operator that was read as one
    and no file name is in it.  (3) The parser fails with EmptyCommand
    exactly when there is no argument.  The loop of [main] writes nothing
    for EmptyCommand and writes the message for a SyntaxError. *)
Theorem parse_command_scan :
  (forall tokens : list string,
      exists items,
        forallb item_ok items = true
        /\ (tokens = flatten items
            \/ exists op, is_redir op = true
                          /\ tokens = (flatten items ++ [op])%list))
  /\ (forall items : list item,
        forallb item_ok items = true ->
        (forall op, is_redir op = true ->
           parse_command (flatten items ++ [op]) = inr (SyntaxError op))
        /\ (args_of items = [] ->
            parse_command (flatten items) = inr EmptyCommand)
        /\ (args_of items <> [] ->
            exists cmd,
              parse_command (flatten items) = inl cmd
              /\ argv cmd = args_of items))
  /\ (forall (env : Env) (history : list string) (line : string),
        is_all_spaces line = false ->
        (parse_command (expand_env env (tokenize line)) = inr EmptyCommand ->
         process_line env history line = (history, Rejected EmptyString))
        /\ (forall op,
              parse_command (expand_env env (tokenize line))
              = inr (SyntaxError op) ->
              process_line env history line
              = (history, Rejected (SyntaxError op ++ newline)))).
Proof.
  split; [|split].
  - apply tokens_are_items.
  - intros items Hok. split; [|split].
    + intros op Hop. now apply parse_command_missing_operand.
    + intros Hargs. rewrite (parse_command_items items Hok).
      now rewrite Hargs.
    + intros Hargs. rewrite (parse_command_items items Hok).
      destruct (args_of items) as [|a args] eqn:E; [contradiction|].
      eexists. split; [reflexivity|].
      rewrite fold_apply_item_argv. now rewrite E.
  - intros env history line Hsp. split.
    + intros H. now rewrite (process_line_rejects env history line _ Hsp H).
    + intros op H. rewrite (process_line_rejects env history line _ Hsp H).
      now rewrite SyntaxError_not_EmptyCommand.
Qed.

Lemma parse_command_scan_witness :
  parse_command ["echo"; ">"; ">"; "<"] = inr (SyntaxError "<")
  /\ parse_command [">"; "x"] = inr EmptyCommand
  /\ (exists cmd,
        parse_command ["echo"; "hi"; ">"; "out.txt"] = inl cmd
        /\ argv cmd = ["echo"; "hi"])
  /\ process_line [] ["ls"] "> x" = (["ls"], Rejected EmptyString)
  /\ process_line [] ["ls"] "cat <"
     = (["ls"], Rejected (SyntaxError "<" ++ newline)).
Proof.
  destruct parse_command_scan as (_ & Hitems & Hline).
  split; [|split; [|split; [|split]]].
  - apply (Hitems [Arg "echo"; Redir ">" ">"]); reflexivity.
  - apply (Hitems [Redir ">" "x"]); reflexivity.
  - apply (Hitems [Arg "echo"; Arg "hi"; Redir ">" "out.txt"]);
      [reflexivity | discriminate].
  - apply (Hline [] ["ls"] "> x"); reflexivity.
  - apply (Hline [] ["ls"] "cat <"); reflexivity.
Defined.

(** C4 fails as stated: the last token of the list below is equal to an
    operator and has no token after it, yet the parser succeeds, because
    that token was taken as the file name of the operator before it. *)
Lemma operator_as_last_token_accepted :
  last ["echo"; ">"; ">"] EmptyString = ">"
  /\ is_redir ">" = true
  /\ parse_command ["echo"; ">"; ">"]
     = inl (mkCommand ["echo"] EmptyString ">" false).
Proof. repeat split. Qed.

Lemma fold_apply_item_keeps_stream (op file : string) (post : list item) :
  forallb (fun it => negb (same_stream op it)) post = true ->
  forall cmd,
    (op = "<" -> in_file cmd = file ->
     in_file (fold_left apply_item post cmd) = file)
    /\ (op <> "<" -> forall app,
          out_file cmd = file -> append cmd = app ->
          out_file (fold_left apply_item post cmd) = file
          /\ append (fold_left apply_item post cmd) = app).
Proof.
  induction post as [|it post IH]; intros H cmd.
  - split; [auto | intros _ app H1 H2; now split].
  - simpl in H. apply andb_true_iff in H as [Hit H].
    apply negb_true_iff in Hit.
    specialize (IH H (apply_item cmd it)). destruct IH as [IHin IHout].
    split.
    + intros -> Hin. simpl. apply IHin; [reflexivity|].
      destruct it as [t | op' f]; simpl in *; [assumption|].
      destruct (op' =? "<"); [discriminate | assumption].
    + intros Hop app Hout Happ. simpl. apply IHout; [assumption | |].
      * destruct it as [t | op' f]; simpl in *; [assumption|].
        apply String.eqb_neq in Hop. rewrite Hop in Hit.
        destruct (op' =? "<"); [assumption | discriminate].
      * destruct it as [t | op' f]; simpl in *; [assumption|].
        apply String.eqb_neq in Hop. rewrite Hop in Hit.
        destruct (op' =? "<"); [assumption | discriminate].
Qed.

(** C8.  Last occurrence wins.  In a token list that parses into a
    command, take an operator with its file name such that no later
    operator redirects the same stream ([<] for the input, [>] and [>>]
    for the output), whatever came before it: the command records that
    file name, and for the output the mode of that operator. *)
Theorem last_redirection_wins :
  forall (pre post : list item) (op file : string) (cmd : Command),
    forallb item_ok (pre ++ Redir op file :: post) = true ->
    forallb (fun it => negb (same_stream op it)) post = true ->
    parse_command (flatten (pre ++ Redir op file :: post)) = inl cmd ->
    (op = "<" -> in_file cmd = file)
    /\ (op <> "<" -> out_file cmd = file /\ append cmd = (op =? ">>")).
Proof.
  intros pre post op file cmd Hok Hlast Hparse.
  rewrite (parse_command_items _ Hok) in Hparse.
  destruct (args_of (pre ++ Redir op file :: post)); [discriminate|].
  injection Hparse as <-.
  rewrite fold_left_app. cbn [fold_left].
  destruct (fold_apply_item_keeps_stream op file post Hlast
              (apply_item (fold_left apply_item pre Command_init)
                          (Redir op file))) as [Hin Hout].
  split.
  - intros ->. apply Hin; reflexivity.
  - intros Hop. apply Hout; [assumption | |];
      apply String.eqb_neq in Hop; simpl; rewrite Hop; reflexivity.
Qed.

Lemma last_redirection_wins_witness :
  in_file (mkCommand ["cmd"; "x"] "j" "b" true) = "j"
  /\ out_file (mkCommand ["cmd"; "x"] "j" "b" true) = "b"
  /\ append (mkCommand ["cmd"; "x"] "j" "b" true) = true.
Proof.
  split.
  - apply (last_redirection_wins
             [Arg "cmd"; Redir ">" "a"; Redir "<" "i"; Redir ">>" "b"]
             [Arg "x"] "<" "j"); reflexivity.
  - apply (last_redirection_wins
             [Arg "cmd"; Redir ">" "a"; Redir "<" "i"]
             [Redir "<" "j"; Arg "x"] ">>" "b");
      [reflexivity | reflexivity | reflexivity | discriminate].
Defined.

(** ** The history *)

Lemma skipn_S_tl {A : Type} (l : list A) :
  forall k, skipn (S k) l = tl (skipn k l).
Proof.
  induction l as [|a l IH]; intros k.
  - now destruct k.
  - destruct k as [|k]; [reflexivity|].
    change (skipn (S (S k)) (a :: l)) with (skipn (S k) l).
    change (skipn (S k) (a :: l)) with (skipn k l). apply IH.
Qed.

Lemma lastn_short {A : Type} (n : nat) (l : list A) :
  (List.length l <= n)%nat -> lastn n l = l.
Proof.
  intros H. unfold lastn.
  replace (List.length l - n)%nat with 0%nat by lia. reflexivity.
Qed.

Lemma lastn_length {A : Type} (n : nat) (l : list A) :
  (List.length (lastn n l) <= n)%nat.
Proof. unfold lastn. rewrite length_skipn. lia. Qed.

Lemma history_push_lastn (l : list string) (x : string) :
  history_push (lastn 200 l) x = lastn 200 (l ++ [x]).
Proof.
  unfold history_push, lastn.
  rewrite !length_app, length_skipn. cbn [List.length].
  destruct (Nat.ltb_spec 200
              (List.length l - (List.length l - 200) + 1)) as [Hgt | Hle].
  - replace (List.length l + 1 - 200)%nat
      with (S (List.length l - 200)) by lia.
    rewrite skipn_S_tl, skipn_app.
    replace (List.length l - 200 - List.length l)%nat with 0%nat by lia.
    reflexivity.
  - replace (List.length l - 200)%nat with 0%nat by lia.
    replace (List.length l + 1 - 200)%nat with 0%nat by lia.
    reflexivity.
Qed.

Lemma history_push_bounded (h : list string) (x : string) :
  (List.length h <= 200)%nat ->
  history_push h x = lastn 200 (h ++ [x])
  /\ (List.length (history_push h x) <= 200)%nat.
Proof.
  intros H. rewrite <- (lastn_short 200 h H) at 1 3.
  rewrite history_push_lastn. split; [reflexivity | apply lastn_length].
Qed.

Lemma tok_loop_spaces (line : string) :
  forall toks cur,
    is_all_spaces line = true ->
    tok_loop toks cur false false line
    = if negb (empty cur) then (toks ++ [cur])%list else toks.
Proof.
  induction line as [|c line IH]; intros toks cur H; [reflexivity|].
  simpl in H. destruct (isspace c) eqn:Hc; [|discriminate]. simpl in H.
  cbn [tok_loop]. rewrite Hc.
  destruct (negb (empty cur)) eqn:E; rewrite (IH _ _ H); [reflexivity|].
  now rewrite E.
Qed.

Lemma parse_blank (env : Env) (line : string) :
  is_all_spaces line = true ->
  parse_command (expand_env env (tokenize line)) = inr EmptyCommand.
Proof.
  intros H. unfold tokenize. now rewrite (tok_loop_spaces line [] EmptyString H).
Qed.

Lemma process_line_history (env : Env) (history : list string) (line : string) :
  fst (process_line env history line)
  = if parse_ok env line then history_push history line else history.
Proof.
  unfold process_line, parse_ok.
  destruct (is_all_spaces line) eqn:Hsp.
  - now rewrite (parse_blank env line Hsp).
  - destruct (parse_command (expand_env env (tokenize line))); reflexivity.
Qed.

Lemma process_line_listing (env : Env) (history : list string) (line : string)
    (text : string) :
  snd (process_line env history line) = Ran (ActHistory text) ->
  text = print_history 0 (fst (process_line env history line)).
Proof.
  unfold process_line.
  destruct (is_all_spaces line); [discriminate|].
  destruct (parse_command (expand_env env (tokenize line))) as [cmd | err];
    [|discriminate].
  cbn [fst snd]. unfold dispatch.
  repeat match goal with
         | |- Ran (if ?b then _ else _) = _ -> _ => destruct b; try discriminate
         end.
  intros H. now injection H as <-.
Qed.

Lemma history_after_snoc (env : Env) (h : list string) (lines : list string)
    (line : string) :
  history_after env h (lines ++ [line])
  = fst (process_line env (history_after env h lines) line).
Proof. unfold history_after. now rewrite fold_left_app. Qed.

Lemma history_after_lastn (env : Env) (lines : list string) :
  history_after env [] lines = lastn 200 (filter (parse_ok env) lines).
Proof.
  induction lines as [|line lines IH] using rev_ind; [reflexivity|].
  rewrite history_after_snoc, process_line_history, IH, filter_app.
  cbn [filter]. destruct (parse_ok env line).
  - apply history_push_lastn.
  - now rewrite app_nil_r.
Qed.

Lemma firstn_S_snoc {A : Type} (d : A) (l : list A) :
  forall k, (k < List.length l)%nat ->
            firstn (S k) l = (firstn k l ++ [nth k l d])%list.
Proof.
  induction l as [|a l IH]; intros k Hk; [simpl in Hk; lia|].
  destruct k as [|k]; [reflexivity|].
  cbn [firstn nth app]. f_equal. apply IH. simpl in Hk. lia.
Qed.

(** The [k]-th iteration of the loop starts from the history left by the
    first [k] lines and handles the [k]-th line. *)
Lemma main_loop_nth (env : Env) (stdin : list string) :
  forall h0 k r,
    nth_error (main_loop env h0 stdin) k = Some r ->
    (k < List.length stdin)%nat
    /\ r = process_line env (history_after env h0 (firstn k stdin))
             (nth k stdin EmptyString).
Proof.
  induction stdin as [|line stdin IH]; intros h0 k r H.
  - destruct k; discriminate.
  - cbn [main_loop] in H. cbv zeta in H.
    destruct k as [|k].
    + assert (E : r = process_line env h0 line).
      { destruct (snd (process_line env h0 line)) as [| |[]];
          cbn in H; congruence. }
      split; [simpl; lia | exact E].
    + assert (E : nth_error (main_loop env (fst (process_line env h0 line))
                               stdin) k = Some r).
      { destruct (snd (process_line env h0 line)) as [| |[]];
          cbn [nth_error] in H; try exact H.
        destruct k; discriminate. }
      destruct (IH _ _ _ E) as [Hk Hr].
      split; [simpl; lia | exact Hr].
Qed.

Lemma main_loop_history (env : Env) (stdin : list string) (k : nat)
    (h : list string) (o : outcome) :
  nth_error (main env stdin) k = Some (h, o) ->
  h = history_after env [] (firstn (S k) stdin)
  /\ o = snd (process_line env (history_after env [] (firstn k stdin))
                (nth k stdin EmptyString)).
Proof.
  intros H. destruct (main_loop_nth env stdin [] k _ H) as [Hk Hr].
  rewrite (firstn_S_snoc EmptyString stdin k Hk), history_after_snoc.
  rewrite <- Hr. split; reflexivity.
Qed.

Lemma print_history_numbered (history : list string) :
  forall i,
    print_history i history
    = fold_right String.append EmptyString
        (map (fun p => history_entry (fst p) (snd p))
             (combine (seq (i + 1) (List.length history)) history)).
Proof.
  induction history as [|e history IH]; intros i; [reflexivity|].
  cbn [print_history List.length seq combine map fold_right fst snd].
  rewrite IH. unfold history_entry.
  replace (S (i + 1)) with (S i + 1)%nat by lia.
  now rewrite !append_assoc.
Qed.

(** C10.  The history holds at most 200 entries.  One iteration keeps
    the bound: when the line parses it is appended and the oldest entry
    goes if there are then more than 200, which leaves the last 200
    entries; otherwise the history is unchanged.  So after every
    iteration of the loop the history is the last (at most 200) lines
    read so far that parsed, in the order they were read. *)
Theorem history_at_most_200 :
  forall env : Env,
    (forall history line,
        (List.length history <= 200)%nat ->
        (List.length (fst (process_line env history line)) <= 200)%nat
        /\ fst (process_line env history line)
           = if parse_ok env line then lastn 200 (history ++ [line])
             else history)
    /\ (forall stdin k h o,
          nth_error (main env stdin) k = Some (h, o) ->
          (List.length h <= 200)%nat
          /\ h = lastn 200 (filter (parse_ok env) (firstn (S k) stdin))).
Proof.
  intros env. split.
  - intros history line H. rewrite process_line_history.
    destruct (history_push_bounded history line H) as [Heq Hlen].
    destruct (parse_ok env line); split; auto.
  - intros stdin k h o H.
    destruct (main_loop_history env stdin k h o H) as [-> _].
    rewrite history_after_lastn. split; [apply lastn_length | reflexivity].
Qed.

Lemma history_at_most_200_witness :
  (List.length (fst (process_line [] ["ls"] "pwd")) <= 200)%nat
  /\ fst (process_line [] ["ls"] "pwd") = lastn 200 ["ls"; "pwd"]
  /\ (List.length (lastn 200 (filter (parse_ok []) stdin_201)) <= 200)%nat.
Proof.
  destruct (history_at_most_200 []) as [Hstep Hloop].
  split; [|split].
  - apply (Hstep ["ls"] "pwd"). simpl. lia.
  - apply (Hstep ["ls"] "pwd"). simpl. lia.
  - destruct (Hloop stdin_201 200%nat
                (lastn 200 (filter (parse_ok []) stdin_201))
                (Ran (ActHistory (print_history 0 (tl stdin_201)))))
      as [Hlen _]; [vm_compute; reflexivity | exact Hlen].
Defined.

(** C6, as the code has it.  A line is appended to the history (and the
    oldest entry dropped if that makes more than 200) exactly when it
    parses into a command; a line that is blank or fails to parse, with
    EmptyCommand or with a SyntaxError, leaves the history unchanged.
    The [history] built-in lists the entries the history holds, numbered
    from 1 in the order they were read: the last 200 at most of the lines
    recorded so far, its own line included, and all of them as long as
    no more than 200 were recorded. *)
Theorem history_records_parsed_lines :
  forall env : Env,
    (forall history line,
        (forall cmd,
            parse_command (expand_env env (tokenize line)) = inl cmd ->
            fst (process_line env history line) = history_push history line)
        /\ (forall err,
              parse_command (expand_env env (tokenize line)) = inr err ->
              fst (process_line env history line) = history)
        /\ (is_all_spaces line = true ->
            fst (process_line env history line) = history))
    /\ (forall stdin k h text,
          nth_error (main env stdin) k = Some (h, Ran (ActHistory text)) ->
          text = listing h
          /\ h = lastn 200 (filter (parse_ok env) (firstn (S k) stdin))
          /\ ((List.length (filter (parse_ok env) (firstn (S k) stdin))
               <= 200)%nat ->
              text = listing (filter (parse_ok env) (firstn (S k) stdin)))).
Proof.
  intros env. split.
  - intros history line. split; [|split].
    + intros cmd H. rewrite process_line_history. unfold parse_ok.
      now rewrite H.
    + intros err H. rewrite process_line_history. unfold parse_ok.
      now rewrite H.
    + intros H. rewrite process_line_history. unfold parse_ok.
      now rewrite (parse_blank env line H).
  - intros stdin k h text H.
    destruct (main_loop_history env stdin k h _ H) as [Hh Ho].
    symmetry in Ho. apply process_line_listing in Ho.
    rewrite <- history_after_snoc in Ho.
    destruct (main_loop_nth env stdin [] k _ H) as [Hk _].
    rewrite <- (firstn_S_snoc EmptyString stdin k Hk), <- Hh in Ho.
    assert (Htext : text = listing h).
    { rewrite Ho. unfold listing. apply (print_history_numbered h 0). }
    assert (Hlast : h = lastn 200 (filter (parse_ok env) (firstn (S k) stdin))).
    { rewrite Hh. apply history_after_lastn. }
    split; [exact Htext|]. split; [exact Hlast|].
    intros Hlen. rewrite Htext, Hlast. now rewrite lastn_short.
Qed.

Lemma history_records_parsed_lines_witness :
  fst (process_line [] ["ls"] "pwd") = history_push ["ls"] "pwd"
  /\ fst (process_line [] ["ls"] "cat <") = ["ls"]
  /\ fst (process_line [] ["ls"] "   ") = ["ls"]
  /\ print_history 0 ["ls"; "history"] = listing ["ls"; "history"].
Proof.
  destruct (history_records_parsed_lines []) as [Hstep Hloop].
  split; [|split; [|split]].
  - destruct (Hstep ["ls"] "pwd") as (Hok & _ & _).
    apply (Hok (mkCommand ["pwd"] EmptyString EmptyString false)).
    reflexivity.
  - destruct (Hstep ["ls"] "cat <") as (_ & Herr & _).
    apply (Herr (SyntaxError "<")). reflexivity.
  - destruct (Hstep ["ls"] "   ") as (_ & _ & Hblank).
    apply Hblank. reflexivity.
  - destruct (Hloop ["ls"; "  "; "history"] 2%nat ["ls"; "history"]
                (print_history 0 ["ls"; "history"]) eq_refl)
      as (Htext & _ & _).
    exact Htext.
Defined.

(** C6 fails as stated: each of the 201 lines of [stdin_201] parses and
    is recorded, and the listing printed for the last of them holds 200
    entries: the first line recorded is not listed. *)
Lemma history_listing_drops_oldest :
  filter (parse_ok []) stdin_201 = stdin_201
  /\ nth_error (main [] stdin_201) 200
     = Some (tl stdin_201, Ran (ActHistory (listing (tl stdin_201))))
  /\ listing (tl stdin_201) <> listing stdin_201.
Proof.
  split; [vm_compute; reflexivity|]. split; [vm_compute; reflexivity|].
  apply String.eqb_neq. vm_compute. reflexivity.
Qed.

(** ** The executor *)

Lemma wait_status_exited (code : Z) :
  WIFEXITED (wait_status (Exited code)) = true
  /\ WEXITSTATUS (wait_status (Exited code)) = Z.land code 255.
Proof.
  unfold WIFEXITED, WEXITSTATUS, wait_status. split.
  - apply Z.eqb_eq. change 127%Z with (Z.ones 7).
    rewrite Z.land_ones by lia. rewrite Z.shiftl_mul_pow2 by lia.
    change (2 ^ 8)%Z with (2 * 2 ^ 7)%Z.
    rewrite Z.mul_assoc. apply Z.mod_mul. lia.
  - rewrite Z.shiftr_land. rewrite Z.shiftr_shiftl_l by lia.
    change (8 - 8)%Z with 0%Z. rewrite Z.shiftl_0_r.
    change (Z.shiftr 65280 8) with 255%Z.
    now rewrite <- Z.land_assoc.
Qed.

Lemma wait_status_signaled (sig : Z) (core : bool) :
  (0 < sig < 128)%Z ->
  WIFEXITED (wait_status (Signaled sig core)) = false.
Proof.
  intros H. unfold WIFEXITED, wait_status. apply Z.eqb_neq.
  rewrite Z.land_lor_distr_l, <- Z.land_assoc.
  change (Z.land 127 127) with 127%Z.
  replace (Z.land (if core then 128 else 0) 127)%Z with 0%Z
    by (destruct core; reflexivity).
  rewrite Z.lor_0_r. change 127%Z with (Z.ones 7).
  rewrite Z.land_ones by lia. rewrite Z.mod_small by (simpl; lia). lia.
Qed.

Lemma run_external_waited (sys : Sys) (cmd : Command) :
  fork_ok sys = true ->
  waitpid_ok sys = true ->
  fst (run_external sys cmd)
  = if WIFEXITED (wait_status (child sys cmd))
    then WEXITSTATUS (wait_status (child sys cmd)) else 1%Z.
Proof. intros Hf Hw. unfold run_external. now rewrite Hf, Hw. Qed.

Lemma child_input_failure (sys : Sys) (cmd : Command) :
  empty (in_file cmd) = false ->
  open_ok sys (in_file cmd) O_RDONLY = false
  \/ dup2_ok sys STDIN_FILENO = false ->
  child sys cmd = Exited 127.
Proof.
  intros He H. unfold child. rewrite He. cbn [negb].
  destruct H as [-> | ->]; [reflexivity|].
  destruct (open_ok sys (in_file cmd) O_RDONLY); reflexivity.
Qed.

Lemma child_output_failure (sys : Sys) (cmd : Command) :
  empty (out_file cmd) = false ->
  open_ok sys (out_file cmd)
    (Z.lor (Z.lor O_WRONLY O_CREAT) (if append cmd then O_APPEND else O_TRUNC))
  = false
  \/ dup2_ok sys STDOUT_FILENO = false ->
  child sys cmd = Exited 127.
Proof.
  intros He H. unfold child. rewrite He. cbn [negb]. cbv zeta.
  assert (E : (if negb (open_ok sys (out_file cmd)
                     (Z.lor (Z.lor O_WRONLY O_CREAT)
                        (if append cmd then O_APPEND else O_TRUNC)))
               then Exited 127
               else if negb (dup2_ok sys STDOUT_FILENO) then Exited 127
                    else match execvp sys (argv cmd) with
                         | Some e => e
                         | None => Exited 127
                         end) = Exited 127).
  { destruct H as [-> | ->]; [reflexivity|].
    destruct (open_ok sys (out_file cmd) _); reflexivity. }
  rewrite E.
  destruct (negb (empty (in_file cmd))); [|reflexivity].
  destruct (negb (open_ok sys (in_file cmd) O_RDONLY)); [reflexivity|].
  destruct (negb (dup2_ok sys STDIN_FILENO)); reflexivity.
Qed.

Lemma child_load_failure (sys : Sys) (cmd : Command) :
  execvp sys (argv cmd) = None ->
  child sys cmd = Exited 127.
Proof.
  intros H. unfold child. rewrite H. cbv zeta.
  repeat match goal with
         | |- context [if ?b then _ else _] => destruct b
         end; reflexivity.
Qed.

(** With every redirection that was asked for established, the child is
    the loaded program. *)
Lemma child_loaded (sys : Sys) (cmd : Command) (e : child_end) :
  (empty (in_file cmd) = false ->
   open_ok sys (in_file cmd) O_RDONLY = true
   /\ dup2_ok sys STDIN_FILENO = true) ->
  (empty (out_file cmd) = false ->
   open_ok sys (out_file cmd)
     (Z.lor (Z.lor O_WRONLY O_CREAT) (if append cmd then O_APPEND else O_TRUNC))
   = true
   /\ dup2_ok sys STDOUT_FILENO = true) ->
  execvp sys (argv cmd) = Some e ->
  child sys cmd = e.
Proof.
  intros Hin Hout Hexec. unfold child. rewrite Hexec. cbv zeta.
  destruct (empty (in_file cmd)); destruct (empty (out_file cmd)); cbn [negb].
  - reflexivity.
  - destruct Hout as [-> ->]; reflexivity.
  - destruct Hin as [-> ->]; reflexivity.
  - destruct Hin as [-> ->]; [reflexivity|].
    destruct Hout as [-> ->]; reflexivity.
Qed.

(** C1, as the code has it.  [run_external] returns 1 when [fork]
    fails, and also when [waitpid] fails.  Otherwise it returns the
    child's own exit code when the child ended normally, and 1 when the
    child was killed by a signal.  A redirection that cannot be set up
    ([open] or [dup2] failing, for the input or for the output) and a
    program that cannot be loaded make the child exit with 127, which is
    then the value returned; with the redirections set up, the child is
    the loaded program. *)
Theorem run_external_exit_status :
  forall (sys : Sys) (cmd : Command),
    (fork_ok sys = false -> fst (run_external sys cmd) = 1%Z)
    /\ (fork_ok sys = true -> waitpid_ok sys = false ->
        fst (run_external sys cmd) = 1%Z)
    /\ (fork_ok sys = true -> waitpid_ok sys = true ->
        (forall code,
            (0 <= code < 256)%Z ->
            child sys cmd = Exited code ->
            fst (run_external sys cmd) = code)
        /\ (forall sig core,
              (0 < sig < 128)%Z ->
              child sys cmd = Signaled sig core ->
              fst (run_external sys cmd) = 1%Z)
        /\ (empty (in_file cmd) = false ->
            open_ok sys (in_file cmd) O_RDONLY = false
            \/ dup2_ok sys STDIN_FILENO = false ->
            fst (run_external sys cmd) = 127%Z)
        /\ (empty (out_file cmd) = false ->
            open_ok sys (out_file cmd)
              (Z.lor (Z.lor O_WRONLY O_CREAT)
                     (if append cmd then O_APPEND else O_TRUNC)) = false
            \/ dup2_ok sys STDOUT_FILENO = false ->
            fst (run_external sys cmd) = 127%Z)
        /\ (execvp sys (argv cmd) = None ->
            fst (run_external sys cmd) = 127%Z)
        /\ (forall e,
              (empty (in_file cmd) = false ->
               open_ok sys (in_file cmd) O_RDONLY = true
               /\ dup2_ok sys STDIN_FILENO = true) ->
              (empty (out_file cmd) = false ->
               open_ok sys (out_file cmd)
                 (Z.lor (Z.lor O_WRONLY O_CREAT)
                        (if append cmd then O_APPEND else O_TRUNC)) = true
               /\ dup2_ok sys STDOUT_FILENO = true) ->
              execvp sys (argv cmd) = Some e ->
              child sys cmd = e)).
Proof.
  intros sys cmd. split; [|split].
  - intros Hf. unfold run_external. now rewrite Hf.
  - intros Hf Hw. unfold run_external. now rewrite Hf, Hw.
  - intros Hf Hw.
    assert (Hexit : forall code, (0 <= code < 256)%Z ->
                      child sys cmd = Exited code ->
                      fst (run_external sys cmd) = code).
    { intros code Hc He. rewrite (run_external_waited sys cmd Hf Hw), He.
      destruct (wait_status_exited code) as [-> ->].
      change 255%Z with (Z.ones 8). rewrite Z.land_ones by lia.
      apply Z.mod_small. simpl. lia. }
    split; [exact Hexit|]. split; [|split; [|split; [|split]]].
    + intros sig core Hs He.
      rewrite (run_external_waited sys cmd Hf Hw), He.
      now rewrite (wait_status_signaled sig core Hs).
    + intros He H. apply Hexit; [lia|]. now apply child_input_failure.
    + intros He H. apply Hexit; [lia|]. now apply child_output_failure.
    + intros H. apply Hexit; [lia|]. now apply child_load_failure.
    + intros e. apply child_loaded.
Qed.

Lemma run_external_exit_status_witness :
  fst (run_external sys_no_fork (mkCommand ["ls"] EmptyString EmptyString false))
  = 1%Z
  /\ fst (run_external sys_demo (mkCommand ["ls"] EmptyString "out" true)) = 2%Z
  /\ fst (run_external sys_demo (mkCommand ["sleep"; "9"] EmptyString EmptyString false))
     = 1%Z
  /\ fst (run_external sys_demo (mkCommand ["ls"] "missing" EmptyString false))
     = 127%Z
  /\ fst (run_external sys_demo (mkCommand ["ls"] EmptyString "missing" false))
     = 127%Z
  /\ fst (run_external sys_demo (mkCommand ["nosuch"] EmptyString EmptyString false))
     = 127%Z.
Proof.
  split; [|split; [|split; [|split; [|split]]]].
  - destruct (run_external_exit_status sys_no_fork
                (mkCommand ["ls"] EmptyString EmptyString false))
      as (Hfork & _).
    apply Hfork. reflexivity.
  - destruct (run_external_exit_status sys_demo
                (mkCommand ["ls"] EmptyString "out" true))
      as (_ & _ & H).
    destruct (H eq_refl eq_refl) as (Hexit & _).
    apply (Hexit 2%Z); [lia | reflexivity].
  - destruct (run_external_exit_status sys_demo
                (mkCommand ["sleep"; "9"] EmptyString EmptyString false))
      as (_ & _ & H).
    destruct (H eq_refl eq_refl) as (_ & Hsig & _).
    apply (Hsig 9%Z false); [lia | reflexivity].
  - destruct (run_external_exit_status sys_demo
                (mkCommand ["ls"] "missing" EmptyString false))
      as (_ & _ & H).
    destruct (H eq_refl eq_refl) as (_ & _ & Hin & _).
    apply Hin; [reflexivity | left; reflexivity].
  - destruct (run_external_exit_status sys_demo
                (mkCommand ["ls"] EmptyString "missing" false))
      as (_ & _ & H).
    destruct (H eq_refl eq_refl) as (_ & _ & _ & Hout & _).
    apply Hout; [reflexivity | left; reflexivity].
  - destruct (run_external_exit_status sys_demo
                (mkCommand ["nosuch"] EmptyString EmptyString false))
      as (_ & _ & H).
    destruct (H eq_refl eq_refl) as (_ & _ & _ & _ & Hload & _).
    apply Hload. reflexivity.
Defined.

(** C1 fails as stated: when [fork] fails, [run_external] returns 1,
    not 127. *)
Lemma fork_failure_returns_1 :
  fork_ok sys_no_fork = false
  /\ run_external sys_no_fork (mkCommand ["ls"] EmptyString EmptyString false)
     = (1%Z, [SysFork; SysPerror "fork"])
  /\ fst (run_external sys_no_fork
            (mkCommand ["ls"] EmptyString EmptyString false)) <> 127%Z.
Proof. repeat split. discriminate. Qed.

(** C7.  A command whose [argv[0]] is [cd], [pwd], [exit], [help] or
    [history] is handled in the shell's own process: it is not passed to
    [run_external] and none of the calls it makes is a [fork].  What is
    done does not depend on the redirections of the command: any other
    [in_file], [out_file] and [append] give the same action.  Every
    other command is passed to [run_external]. *)
Theorem builtins_run_in_process :
  forall (env : Env) (sys : Sys) (history : list string) (cmd : Command),
    (is_builtin (hd EmptyString (argv cmd)) = true ->
     (forall c, dispatch history cmd <> ActExternal c)
     /\ ~ In SysFork (perform env sys (dispatch history cmd))
     /\ forall input output app,
          dispatch history (mkCommand (argv cmd) input output app)
          = dispatch history cmd)
    /\ (is_builtin (hd EmptyString (argv cmd)) = false ->
        dispatch history cmd = ActExternal cmd).
Proof.
  intros env sys history cmd. unfold is_builtin, dispatch. cbn [argv].
  destruct (hd EmptyString (argv cmd) =? "exit") eqn:Eexit;
  destruct (hd EmptyString (argv cmd) =? "cd") eqn:Ecd;
  destruct (hd EmptyString (argv cmd) =? "pwd") eqn:Epwd;
  destruct (hd EmptyString (argv cmd) =? "help") eqn:Ehelp;
  destruct (hd EmptyString (argv cmd) =? "history") eqn:Ehist;
  cbn [orb]; (split; [intros H | intros H]);
    try discriminate H; try reflexivity;
    (split; [intros c; discriminate | split; [|reflexivity]]);
    cbn [perform]; unfold builtin_cd, builtin_pwd;
    repeat match goal with
           | |- context [if ?b then _ else _] => destruct b
           | |- context [match getcwd sys with _ => _ end] =>
               destruct (getcwd sys)
           end;
    cbn [snd In]; intuition discriminate.
Qed.

Lemma builtins_run_in_process_witness :
  ~ In SysFork
      (perform [] sys_demo
         (dispatch ["cd / > f"] (mkCommand ["cd"; "/"] EmptyString "f" false)))
  /\ dispatch ["cd / > f"] (mkCommand ["cd"; "/"] "i" "o" true)
     = dispatch ["cd / > f"] (mkCommand ["cd"; "/"] EmptyString "f" false)
  /\ dispatch ["ls > f"] (mkCommand ["ls"] EmptyString "f" false)
     = ActExternal (mkCommand ["ls"] EmptyString "f" false).
Proof.
  split; [|split].
  - destruct (builtins_run_in_process [] sys_demo ["cd / > f"]
                (mkCommand ["cd"; "/"] EmptyString "f" false)) as [H _].
    destruct (H eq_refl) as (_ & Hfork & _). exact Hfork.
  - destruct (builtins_run_in_process [] sys_demo ["cd / > f"]
                (mkCommand ["cd"; "/"] EmptyString "f" false)) as [H _].
    destruct (H eq_refl) as (_ & _ & Hsame). apply (Hsame "i" "o" true).
  - destruct (builtins_run_in_process [] sys_demo ["ls > f"]
                (mkCommand ["ls"] EmptyString "f" false)) as [_ H].
    apply H. reflexivity.
Defined.

(** * Further properties of the code *)

(** ** The tokenizer, in general *)

(** An invariant of the tokenizer loop.  [P k toks cur] speaks of the
    state after [k] characters were read; it must survive appending a
    character that was read, dropping a character that was read, and
    emitting a non-empty current token.  [Q] is what it gives for the
    result. *)
Lemma tok_loop_invariant
    (P : nat -> list string -> string -> Prop)
    (Q : nat -> list string -> Prop) :
  (forall k toks cur c, P k toks cur -> P (S k) toks (push_back cur c)) ->
  (forall k toks cur, P k toks cur -> P (S k) toks cur) ->
  (forall k toks cur,
      P k toks cur -> empty cur = false -> P k (toks ++ [cur])%list EmptyString) ->
  (forall k toks cur,
      P k toks cur -> empty cur = false -> Q k (toks ++ [cur])%list) ->
  (forall k toks cur, P k toks cur -> empty cur = true -> Q k toks) ->
  forall line k toks cur in_single in_double,
    P k toks cur ->
    Q (k + String.length line)%nat (tok_loop toks cur in_single in_double line).
Proof.
  intros Hpush Hskip Hemit Hend1 Hend0 line.
  assert (G : forall n line k toks cur in_single in_double,
             (String.length line <= n)%nat ->
             P k toks cur ->
             Q (k + String.length line)%nat
               (tok_loop toks cur in_single in_double line)).
  { induction n as [|n IH]; intros l k toks cur s d Hlen HP.
    - destruct l; [|simpl in Hlen; lia]. simpl. rewrite Nat.add_0_r.
      destruct (empty cur) eqn:E; simpl; eauto.
    - destruct l as [|c rest].
      + simpl. rewrite Nat.add_0_r.
        destruct (empty cur) eqn:E; simpl; eauto.
      + cbn [String.length] in *.
        replace (k + S (String.length rest))%nat
          with (S k + String.length rest)%nat by lia.
        assert (Hrest : (String.length rest <= n)%nat) by lia.
        cbn [tok_loop]. cbv zeta.
        destruct d.
        * destruct rest as [|nxt rest'].
          -- destruct (Ascii.eqb c dquote); apply IH; auto.
          -- destruct (Ascii.eqb c backslash
                       && (Ascii.eqb nxt dquote || Ascii.eqb nxt backslash)).
             ++ cbn [String.length] in *.
                replace (S k + S (String.length rest'))%nat
                  with (S (S k) + String.length rest')%nat by lia.
                apply IH; [lia | auto].
             ++ destruct (Ascii.eqb c dquote); apply IH; auto.
        * destruct s.
          -- destruct (Ascii.eqb c squote); apply IH; auto.
          -- destruct (isspace c).
             ++ destruct (empty cur) eqn:E; cbn [negb]; apply IH; auto.
             ++ destruct (Ascii.eqb c dquote); [apply IH; auto|].
                destruct (Ascii.eqb c squote); apply IH; auto. }
  intros k toks cur s d HP. apply (G (String.length line)); auto.
Qed.

Lemma total_length_app (a b : list string) :
  total_length (a ++ b) = (total_length a + total_length b)%nat.
Proof.
  induction a as [|t a IH]; simpl; [reflexivity|].
  unfold total_length in *. simpl. rewrite IH. lia.
Qed.

Lemma length_push_back (s : string) (c : ascii) :
  String.length (push_back s c) = S (String.length s).
Proof.
  unfold push_back. induction s as [|d s IH]; simpl; [reflexivity|].
  now rewrite IH.
Qed.

Lemma empty_push_back (s : string) (c : ascii) : empty (push_back s c) = false.
Proof. destruct s; reflexivity. Qed.

(** X1.  A line of white space only (also the empty line) gives no
    token, and the loop skips it: nothing is written and the history is
    unchanged. *)
Theorem blank_line_is_skipped :
  forall (env : Env) (history : list string) (line : string),
    is_all_spaces line = true ->
    tokenize line = []
    /\ process_line env history line = (history, Blank).
Proof.
  intros env history line H. split.
  - unfold tokenize. now rewrite (tok_loop_spaces line [] EmptyString H).
  - unfold process_line. now rewrite H.
Qed.

Lemma blank_line_is_skipped_witness :
  tokenize "   " = [] /\ process_line [] ["ls"] "   " = (["ls"], Blank).
Proof. apply (blank_line_is_skipped [] ["ls"] "   "). reflexivity. Defined.

(** X2.  No token is empty, whatever the line: an empty pair of quotes
    on its own gives no token at all. *)
Theorem tokenize_no_empty_token :
  forall line : string, Forall (fun t => empty t = false) (tokenize line).
Proof.
  intros line. unfold tokenize.
  assert (Hemit : forall toks cur,
             Forall (fun t => empty t = false) toks ->
             empty cur = false ->
             Forall (fun t => empty t = false) (toks ++ [cur])%list).
  { intros toks cur H E. apply Forall_app. split; [assumption|].
    constructor; [assumption | constructor]. }
  apply (tok_loop_invariant
           (fun _ toks _ => Forall (fun t => empty t = false) toks)
           (fun _ toks => Forall (fun t => empty t = false) toks)
           ltac:(intros; assumption)
           ltac:(intros; assumption)
           ltac:(intros; now apply Hemit)
           ltac:(intros; now apply Hemit)
           ltac:(intros; assumption)
           line 0%nat [] EmptyString false false).
  constructor.
Qed.

(** X3.  The tokenizer adds no character: the tokens of a line have
    together at most as many characters as the line. *)
Theorem tokenize_total_length :
  forall line : string,
    (total_length (tokenize line) <= String.length line)%nat.
Proof.
  intros line. unfold tokenize.
  apply (tok_loop_invariant
           (fun k toks cur => (total_length toks + String.length cur <= k)%nat)
           (fun k toks => (total_length toks <= k)%nat)
           ltac:(cbv beta; intros; rewrite length_push_back; lia)
           ltac:(cbv beta; intros; lia)
           ltac:(cbv beta; intros k toks cur H _;
                 rewrite total_length_app; simpl; lia)
           ltac:(cbv beta; intros k toks cur H _;
                 rewrite total_length_app; simpl; lia)
           ltac:(cbv beta; intros; lia)
           line 0%nat [] EmptyString false false).
  simpl. lia.
Qed.

Lemma join_app (a b : list string) : join (a ++ b) = join a ++ join b.
Proof.
  induction a as [|t a IH]; simpl; [reflexivity|].
  unfold join in *. simpl. now rewrite IH, append_assoc.
Qed.

Lemma empty_true (s : string) : empty s = true -> s = EmptyString.
Proof. destruct s; [reflexivity | discriminate]. Qed.

Lemma all_chars_app (p : ascii -> bool) (a b : string) :
  all_chars p (a ++ b) = all_chars p a && all_chars p b.
Proof.
  induction a as [|c a IH]; simpl; [reflexivity|].
  now rewrite IH, andb_assoc.
Qed.

Lemma tok_loop_unquoted_join (line : string) :
  forall toks cur,
    all_chars not_quote line = true ->
    join (tok_loop toks cur false false line)
    = join toks ++ cur ++ string_filter not_space line.
Proof.
  induction line as [|c line IH]; intros toks cur H.
  - simpl. destruct (empty cur) eqn:E; simpl.
    + rewrite (empty_true cur E). now rewrite append_nil_r.
    + rewrite join_app. reflexivity.
  - simpl in H. apply andb_true_iff in H as [Hc H].
    unfold not_quote in Hc. apply andb_true_iff in Hc as [Hs Hd].
    apply negb_true_iff in Hs, Hd.
    cbn [tok_loop string_filter]. unfold not_space at 1.
    destruct (isspace c); cbn [negb].
    + destruct (empty cur) eqn:E; cbn [negb]; rewrite (IH _ _ H).
      * reflexivity.
      * rewrite join_app. simpl. now rewrite !append_assoc.
    + rewrite Hd, Hs. rewrite (IH _ _ H). now rewrite push_back_append.
Qed.

Lemma tok_loop_unquoted_no_space (line : string) :
  forall toks cur,
    all_chars not_quote line = true ->
    Forall (fun t => all_chars not_space t = true) toks ->
    all_chars not_space cur = true ->
    Forall (fun t => all_chars not_space t = true)
           (tok_loop toks cur false false line).
Proof.
  induction line as [|c line IH]; intros toks cur H Htoks Hcur.
  - simpl. destruct (empty cur); simpl; [assumption|].
    apply Forall_app. split; [assumption | now constructor].
  - simpl in H. apply andb_true_iff in H as [Hc H].
    unfold not_quote in Hc. apply andb_true_iff in Hc as [Hs Hd].
    apply negb_true_iff in Hs, Hd.
    cbn [tok_loop].
    destruct (isspace c) eqn:Esp.
    + destruct (empty cur); cbn [negb]; apply IH; auto.
      apply Forall_app. split; [assumption | now constructor].
    + rewrite Hd, Hs. apply IH; auto.
      unfold push_back. rewrite all_chars_app, Hcur. simpl.
      unfold not_space. now rewrite Esp.
Qed.

(** X4.  On a line without quote characters the tokenizer only removes
    white space: the tokens, one after the other, are the line without
    its white space, and no token holds a white-space character.  A
    backslash outside quotes is an ordinary character. *)
Theorem tokenize_unquoted :
  forall line : string,
    all_chars not_quote line = true ->
    join (tokenize line) = string_filter not_space line
    /\ Forall (fun t => all_chars not_space t = true) (tokenize line).
Proof.
  intros line H. unfold tokenize. split.
  - now rewrite (tok_loop_unquoted_join line [] EmptyString H).
  - apply tok_loop_unquoted_no_space; auto.
Qed.

Lemma tokenize_unquoted_witness :
  join (tokenize " ls  -l a\ b ") = "ls-la\b"
  /\ Forall (fun t => all_chars not_space t = true) (tokenize " ls  -l a\ b ").
Proof. apply (tokenize_unquoted " ls  -l a\ b "). reflexivity. Defined.

Lemma tok_loop_in_single (w : string) :
  forall toks cur,
    all_chars not_squote w = true ->
    (forall rest,
        tok_loop toks cur true false (w ++ String squote rest)
        = tok_loop toks (cur ++ w) false false rest)
    /\ tok_loop toks cur true false w
       = if empty (cur ++ w) then toks else (toks ++ [(cur ++ w)%string])%list.
Proof.
  induction w as [|c w IH]; intros toks cur H.
  - rewrite append_nil_r. split; [reflexivity|].
    simpl. now destruct (empty cur).
  - simpl in H. apply andb_true_iff in H as [Hc H].
    unfold not_squote in Hc. apply negb_true_iff in Hc.
    destruct (IH toks (push_back cur c) H) as [IH1 IH2].
    rewrite push_back_append in IH1, IH2. split.
    + intros rest. cbn [String.append tok_loop]. rewrite Hc. apply IH1.
    + cbn [tok_loop]. rewrite Hc. apply IH2.
Qed.

Lemma tok_loop_in_double (w : string) :
  forall toks cur,
    all_chars (fun c => negb (Ascii.eqb c dquote)
                        && negb (Ascii.eqb c backslash)) w = true ->
    (forall rest,
        tok_loop toks cur false true (w ++ String dquote rest)
        = tok_loop toks (cur ++ w) false false rest)
    /\ tok_loop toks cur false true w
       = if empty (cur ++ w) then toks else (toks ++ [(cur ++ w)%string])%list.
Proof.
  induction w as [|c w IH]; intros toks cur H.
  - rewrite append_nil_r. split.
    + intros rest. simpl. destruct rest; reflexivity.
    + simpl. now destruct (empty cur).
  - simpl in H. apply andb_true_iff in H as [Hc H].
    apply andb_true_iff in Hc as [Hq Hb]. apply negb_true_iff in Hq, Hb.
    destruct (IH toks (push_back cur c) H) as [IH1 IH2].
    rewrite push_back_append in IH1, IH2. split.
    + intros rest. cbn [String.append tok_loop]. cbv zeta.
      rewrite Hq, Hb. cbn [andb].
      rewrite <- (IH1 rest). destruct (w ++ String dquote rest); reflexivity.
    + cbn [tok_loop]. cbv zeta. rewrite Hq, Hb. cbn [andb].
      rewrite <- IH2. destruct w; reflexivity.
Qed.

(** X5.  A quoted span is taken as it is written.  After an opening
    single quote, text without a single quote (white space, double
    quotes and backslashes included) is appended to the current token up
    to the closing quote; after an opening double quote the same holds
    for text without double quote and backslash.  When the closing quote
    is missing, nothing fails: the rest of the line goes into the last
    token. *)
Theorem quoted_span_is_literal :
  forall (toks : list string) (cur w : string),
    (all_chars not_squote w = true ->
     (forall rest,
         tok_loop toks cur false false (String squote (w ++ String squote rest))
         = tok_loop toks (cur ++ w) false false rest)
     /\ tok_loop toks cur false false (String squote w)
        = if empty (cur ++ w) then toks else (toks ++ [(cur ++ w)%string])%list)
    /\ (all_chars (fun c => negb (Ascii.eqb c dquote)
                            && negb (Ascii.eqb c backslash)) w = true ->
        (forall rest,
            tok_loop toks cur false false
              (String dquote (w ++ String dquote rest))
            = tok_loop toks (cur ++ w) false false rest)
        /\ tok_loop toks cur false false (String dquote w)
           = if empty (cur ++ w) then toks else (toks ++ [(cur ++ w)%string])%list).
Proof.
  intros toks cur w. split; intros H.
  - destruct (tok_loop_in_single w toks cur H) as [H1 H2]. split.
    + intros rest. rewrite <- (H1 rest). reflexivity.
    + rewrite <- H2. reflexivity.
  - destruct (tok_loop_in_double w toks cur H) as [H1 H2]. split.
    + intros rest. rewrite <- (H1 rest). reflexivity.
    + rewrite <- H2. reflexivity.
Qed.

Lemma quoted_span_is_literal_witness :
  tok_loop ["echo"] "x" false false "'a  \b' c"
  = tok_loop ["echo"] "xa  \b" false false " c"
  /\ tok_loop ["echo"] "x" false false "'a b"
     = ["echo"; "xa b"]
  /\ tok_loop ["echo"] "x" false false
       (String dquote ("a 'b" ++ String dquote " c"))
     = tok_loop ["echo"] "xa 'b" false false " c".
Proof.
  split; [|split].
  - destruct (quoted_span_is_literal ["echo"] "x" "a  \b") as [H _].
    destruct (H eq_refl) as [H1 _]. apply (H1 " c").
  - destruct (quoted_span_is_literal ["echo"] "x" "a b") as [H _].
    destruct (H eq_refl) as [_ H2]. exact H2.
  - destruct (quoted_span_is_literal ["echo"] "x" "a 'b") as [_ H].
    destruct (H eq_refl) as [H1 _]. apply (H1 " c").
Defined.

(** X6.  Quotes around a word that holds no white space, quote or
    backslash change nothing: wherever the tokenizer is outside quotes,
    the quoted word and the bare word leave it with the same tokens.  So
    a quoted [>] is the same token as a bare one. *)
Theorem quoting_plain_word_is_noop :
  forall (toks : list string) (cur w rest : string),
    all_chars plain_char w = true ->
    tok_loop toks cur false false (String squote (w ++ String squote rest))
    = tok_loop toks cur false false (w ++ rest)
    /\ tok_loop toks cur false false (String dquote (w ++ String dquote rest))
       = tok_loop toks cur false false (w ++ rest).
Proof.
  intros toks cur w rest H. split.
  - now apply tok_loop_single_quoted.
  - now apply tok_loop_double_quoted.
Qed.

Lemma quoting_plain_word_is_noop_witness :
  tok_loop ["echo"] EmptyString false false "'>' f"
  = tok_loop ["echo"] EmptyString false false "> f".
Proof.
  apply (quoting_plain_word_is_noop ["echo"] EmptyString ">" " f").
  reflexivity.
Defined.

(** ** The expander, in general *)

Lemma name_split (s : string) :
  s = name_prefix s ++ name_suffix s
  /\ all_chars name_char (name_prefix s) = true
  /\ head_is name_char (name_suffix s) = false
  /\ (String.length (name_suffix s) <= String.length s)%nat.
Proof.
  induction s as [|c s (IH1 & IH2 & IH3 & IH4)]; [repeat split; auto|].
  simpl. destruct (name_char c) eqn:E; simpl.
  - rewrite E. repeat split; auto. now rewrite <- IH1.
  - rewrite E. repeat split; auto.
Qed.

(** The step of the expander at a reference, for any rest of the token. *)
Lemma expand_reference_split (env : Env) (d : ascii) (s : string) :
  name_start d = true ->
  expand_env_in_token env (String dollar (String d s))
  = value_of env (String d (name_prefix s))
    ++ expand_env_in_token env (name_suffix s).
Proof.
  intros Hd. destruct (name_split s) as (Hs & Hp & Hq & _).
  pose proof (expand_reference env d (name_prefix s) (name_suffix s) Hd Hp Hq)
    as H.
  now rewrite <- Hs in H.
Qed.

Lemma name_start_name_char (c : ascii) :
  name_start c = true -> name_char c = true.
Proof.
  unfold name_start, name_char, isalnum. intros H.
  apply orb_true_iff in H as [H | H]; rewrite H; [reflexivity|].
  now rewrite orb_true_r.
Qed.

Lemma name_split_app (s t : string) :
  head_is name_char t = false ->
  name_prefix (s ++ t) = name_prefix s
  /\ name_suffix (s ++ t) = name_suffix s ++ t.
Proof.
  intros Ht. induction s as [|c s [IH1 IH2]]; simpl.
  - destruct t as [|e t]; [split; reflexivity|].
    simpl in *. rewrite Ht. split; reflexivity.
  - destruct (name_char c); [|split; reflexivity].
    rewrite IH1, IH2. split; reflexivity.
Qed.

(** X7.  Expansion reads the environment only through the values of
    names, an unset name counting as the empty string: two environments
    that give every name the same value give every token the same
    expansion.  A variable set to the empty string is expanded like an
    unset one. *)
Theorem expansion_depends_on_values :
  forall env1 env2 : Env,
    (forall name, value_of env1 name = value_of env2 name) ->
    forall tok,
      expand_env_in_token env1 tok = expand_env_in_token env2 tok.
Proof.
  intros env1 env2 Hval.
  assert (G : forall n tok, (String.length tok <= n)%nat ->
              expand_env_in_token env1 tok = expand_env_in_token env2 tok).
  { induction n as [|n IH]; intros tok Hlen.
    - destruct tok; [reflexivity | simpl in Hlen; lia].
    - destruct tok as [|c rest]; [reflexivity|].
      cbn [String.length] in Hlen.
      destruct (Ascii.eqb c dollar) eqn:Ec.
      + apply Ascii.eqb_eq in Ec. subst c.
        destruct rest as [|d s]; [reflexivity|].
        destruct (name_start d) eqn:Ed.
        * rewrite !expand_reference_split by assumption.
          rewrite Hval. f_equal. apply IH.
          destruct (name_split s) as (_ & _ & _ & Hle).
          cbn [String.length] in Hlen. lia.
        * rewrite !expand_lone_dollar by (simpl; assumption).
          f_equal. apply IH. lia.
      + apply Ascii.eqb_neq in Ec.
        rewrite !expand_other by assumption. f_equal. apply IH. lia. }
  intros tok. apply (G (String.length tok)). lia.
Qed.

Lemma expansion_depends_on_values_witness :
  expand_env_in_token [("X", EmptyString)] "a$X/b"
  = expand_env_in_token [] "a$X/b".
Proof.
  apply (expansion_depends_on_values [("X", EmptyString)] []).
  intros name. unfold value_of. cbn [getenv].
  destruct ("X" =? name); reflexivity.
Defined.

(** X8.  Expansion works piece by piece.  Where a token is cut so that
    the second piece does not start with a letter, a digit or an
    underscore, the expansion of the token is the expansion of the first
    piece followed by the expansion of the second; and a first piece
    without [$] is copied as it is, whatever follows. *)
Theorem expansion_of_concatenation :
  forall (env : Env) (t1 t2 : string),
    (head_is name_char t2 = false ->
     expand_env_in_token env (t1 ++ t2)
     = expand_env_in_token env t1 ++ expand_env_in_token env t2)
    /\ (all_chars not_dollar t1 = true ->
        expand_env_in_token env (t1 ++ t2)
        = t1 ++ expand_env_in_token env t2).
Proof.
  intros env t1 t2. split.
  - intros Ht2.
    assert (G : forall n t, (String.length t <= n)%nat ->
                expand_env_in_token env (t ++ t2)
                = expand_env_in_token env t ++ expand_env_in_token env t2).
    { induction n as [|n IH]; intros t Hlen.
      - destruct t; [reflexivity | simpl in Hlen; lia].
      - destruct t as [|c rest]; [reflexivity|].
        cbn [String.length] in Hlen. cbn [String.append].
        destruct (Ascii.eqb c dollar) eqn:Ec.
        + apply Ascii.eqb_eq in Ec. subst c.
          destruct rest as [|d s].
          * cbn [String.append].
            rewrite expand_lone_dollar; [reflexivity|].
            destruct t2 as [|e t2']; [reflexivity|]. simpl in *.
            destruct (name_start e) eqn:Ee; [|reflexivity].
            apply name_start_name_char in Ee. congruence.
          * cbn [String.append]. destruct (name_start d) eqn:Ed.
            -- rewrite !expand_reference_split by assumption.
               destruct (name_split_app s t2 Ht2) as [-> ->].
               rewrite IH; [now rewrite append_assoc|].
               destruct (name_split s) as (_ & _ & _ & Hle).
               cbn [String.length] in Hlen. lia.
            -- rewrite !expand_lone_dollar by (simpl; assumption).
               change (String d (s ++ t2)) with (String d s ++ t2).
               rewrite IH by lia. reflexivity.
        + apply Ascii.eqb_neq in Ec.
          rewrite !expand_other by assumption.
          rewrite IH by lia. reflexivity. }
    apply (G (String.length t1)). lia.
  - intros H. induction t1 as [|c t1 IH]; [reflexivity|].
    simpl in H. apply andb_true_iff in H as [Hc H].
    unfold not_dollar in Hc. apply negb_true_iff in Hc.
    apply Ascii.eqb_neq in Hc. cbn [String.append].
    rewrite expand_other by assumption. now rewrite IH.
Qed.

Lemma expansion_of_concatenation_witness :
  expand_env_in_token [("HOME", "/home/u")] ("$HOME" ++ "/$HOME")
  = expand_env_in_token [("HOME", "/home/u")] "$HOME"
    ++ expand_env_in_token [("HOME", "/home/u")] "/$HOME"
  /\ expand_env_in_token [("HOME", "/home/u")] ("ab" ++ "c$HOME")
     = "ab" ++ expand_env_in_token [("HOME", "/home/u")] "c$HOME".
Proof.
  destruct (expansion_of_concatenation [("HOME", "/home/u")] "$HOME" "/$HOME")
    as [H1 _].
  destruct (expansion_of_concatenation [("HOME", "/home/u")] "ab" "c$HOME")
    as [_ H2].
  split; [apply H1 | apply H2]; reflexivity.
Defined.

(** ** The parser, in general *)

Lemma parse_loop_no_operator (tokens : list string) :
  forall cmd,
    forallb (fun t => negb (is_redir t)) tokens = true ->
    parse_loop cmd tokens
    = inl (mkCommand (argv cmd ++ tokens) (in_file cmd) (out_file cmd)
             (append cmd)).
Proof.
  induction tokens as [|t tokens IH]; intros cmd H.
  - simpl. rewrite app_nil_r. now destruct cmd.
  - simpl in H. apply andb_true_iff in H as [Ht H].
    apply negb_true_iff in Ht. simpl. rewrite Ht.
    rewrite (IH _ H). simpl. now rewrite <- app_assoc.
Qed.

(** X9.  A token list without operator parses into the command that has
    all the tokens as argv, in order, and no redirection; it fails, with
    EmptyCommand, only when it is empty. *)
Theorem parse_without_operators :
  forall tokens : list string,
    forallb (fun t => negb (is_redir t)) tokens = true ->
    parse_command tokens
    = match tokens with
      | [] => inr EmptyCommand
      | _ :: _ => inl (mkCommand tokens EmptyString EmptyString false)
      end.
Proof.
  intros tokens H. unfold parse_command.
  rewrite (parse_loop_no_operator tokens Command_init H). simpl.
  destruct tokens; reflexivity.
Qed.

Lemma parse_without_operators_witness :
  parse_command ["ls"; "-l"; "a>b"]
  = inl (mkCommand ["ls"; "-l"; "a>b"] EmptyString EmptyString false).
Proof. apply (parse_without_operators ["ls"; "-l"; "a>b"]). reflexivity. Defined.

Lemma args_of_incl (items : list item) : incl (args_of items) (flatten items).
Proof.
  induction items as [|it items IH]; [apply incl_nil_l|].
  destruct it as [t | op file]; simpl.
  - apply incl_cons; [now left | now apply incl_tl].
  - now apply incl_tl, incl_tl.
Qed.

Lemma args_of_length (items : list item) :
  (List.length (args_of items) <= List.length (flatten items))%nat.
Proof.
  induction items as [|it items IH]; [simpl; lia|].
  destruct it; simpl in *; lia.
Qed.

(** A successful parse, read through the items of the token list. *)
Lemma parse_command_success (tokens : list string) (cmd : Command) :
  parse_command tokens = inl cmd ->
  exists items,
    forallb item_ok items = true
    /\ tokens = flatten items
    /\ cmd = fold_left apply_item items Command_init
    /\ argv cmd = args_of items
    /\ args_of items <> [].
Proof.
  intros H. destruct (tokens_are_items tokens) as (items & Hok & Hshape).
  destruct Hshape as [-> | (op & Hop & ->)].
  - rewrite (parse_command_items items Hok) in H.
    destruct (args_of items) as [|a args] eqn:E; [discriminate|].
    injection H as <-. exists items.
    repeat split; auto.
    + rewrite fold_apply_item_argv. now rewrite E.
    + rewrite E. discriminate.
  - rewrite (parse_command_missing_operand items op Hok Hop) in H.
    discriminate.
Qed.

(** X10.  A command returned by the parser has a non-empty argv, so
    [argv[0]] exists when [main] reads it; every element of argv is one
    of the tokens, and argv is no longer than the token list. *)
Theorem parsed_argv_nonempty :
  forall (tokens : list string) (cmd : Command),
    parse_command tokens = inl cmd ->
    (exists name rest, argv cmd = name :: rest)
    /\ incl (argv cmd) tokens
    /\ (List.length (argv cmd) <= List.length tokens)%nat.
Proof.
  intros tokens cmd H.
  destruct (parse_command_success tokens cmd H)
    as (items & _ & -> & _ & Hargv & Hne).
  rewrite Hargv. split; [|split].
  - destruct (args_of items) as [|a args]; [contradiction | eauto].
  - apply args_of_incl.
  - apply args_of_length.
Qed.

Lemma parsed_argv_nonempty_witness :
  (exists name rest,
      argv (mkCommand ["sort"; "-r"] "in" "out" false) = name :: rest)
  /\ incl (argv (mkCommand ["sort"; "-r"] "in" "out" false))
          ["sort"; "<"; "in"; "-r"; ">"; "out"].
Proof.
  destruct (parsed_argv_nonempty ["sort"; "<"; "in"; "-r"; ">"; "out"]
              (mkCommand ["sort"; "-r"] "in" "out" false) eq_refl)
    as (H1 & H2 & _).
  split; assumption.
Defined.

(** X11.  The parser has two errors only.  It fails either with
    EmptyCommand or with the SyntaxError of an operator, and in the
    second case that operator is the last token of the list. *)
Theorem parse_errors :
  forall (tokens : list string) (err : string),
    parse_command tokens = inr err ->
    err = EmptyCommand
    \/ exists op,
         is_redir op = true
         /\ last tokens EmptyString = op
         /\ err = SyntaxError op.
Proof.
  intros tokens err H.
  destruct (tokens_are_items tokens) as (items & Hok & Hshape).
  destruct Hshape as [-> | (op & Hop & ->)].
  - rewrite (parse_command_items items Hok) in H.
    destruct (args_of items); [|discriminate].
    left. now injection H as <-.
  - rewrite (parse_command_missing_operand items op Hok Hop) in H.
    right. exists op. repeat split; auto.
    + apply last_last.
    + now injection H as <-.
Qed.

Lemma parse_errors_witness :
  SyntaxError ">>" = EmptyCommand
  \/ exists op,
       is_redir op = true
       /\ last ["ls"; ">>"] EmptyString = op
       /\ SyntaxError ">>" = SyntaxError op.
Proof. apply (parse_errors ["ls"; ">>"] (SyntaxError ">>")). reflexivity. Defined.

Lemma fold_apply_item_defaults (items : list item) :
  forall cmd,
    forallb item_ok items = true ->
    (~ In "<" (flatten items) ->
     in_file (fold_left apply_item items cmd) = in_file cmd)
    /\ (~ In ">" (flatten items) -> ~ In ">>" (flatten items) ->
        out_file (fold_left apply_item items cmd) = out_file cmd
        /\ append (fold_left apply_item items cmd) = append cmd)
    /\ (~ In ">>" (flatten items) ->
        append (fold_left apply_item items cmd) = true -> append cmd = true).
Proof.
  induction items as [|it items IH]; intros cmd Hok.
  - simpl. repeat split; auto.
  - simpl in Hok. apply andb_true_iff in Hok as [Hit Hok].
    destruct (IH (apply_item cmd it) Hok) as (IHin & IHout & IHapp).
    destruct it as [t | op file]; cbn [fold_left flatten flat_map item_tokens app].
    + change (flat_map item_tokens items) with (flatten items).
      split; [|split].
      * intros Hn. rewrite IHin; [reflexivity|]. intros Hi. apply Hn. now right.
      * intros H1 H2. apply IHout; intros Hi; [apply H1 | apply H2]; now right.
      * intros Hn Ha. apply (IHapp ltac:(intros Hi; apply Hn; now right) Ha).
    + change (flat_map item_tokens items) with (flatten items).
      simpl in Hit. unfold is_redir in Hit.
      split; [|split].
      * intros Hn. rewrite IHin.
        -- simpl. destruct (op =? "<") eqn:E; [|reflexivity].
           apply String.eqb_eq in E. exfalso. apply Hn. left. now symmetry.
        -- intros Hi. apply Hn. right. now right.
      * intros H1 H2.
        assert (E : (op =? "<") = true).
        { destruct (op =? "<") eqn:E1; [reflexivity|].
          destruct (op =? ">") eqn:E2.
          - apply String.eqb_eq in E2. exfalso. apply H1. left. now symmetry.
          - destruct (op =? ">>") eqn:E3; [|discriminate].
            apply String.eqb_eq in E3. exfalso. apply H2. left. now symmetry. }
        destruct IHout as [-> ->];
          [intros Hi; apply H1; right; now right
          |intros Hi; apply H2; right; now right|].
        simpl. rewrite E. split; reflexivity.
      * intros Hn Ha.
        specialize (IHapp ltac:(intros Hi; apply Hn; right; now right) Ha).
        simpl in IHapp. destruct (op =? "<"); [exact IHapp|].
        simpl in IHapp. apply String.eqb_eq in IHapp.
        exfalso. apply Hn. left. now symmetry.
Qed.

(** X12.  Redirection fields are set by operators only.  In a command
    returned by the parser, the input file is empty when no token is
    [<]; the output file is empty and the append flag off when no token
    is [>] or [>>]; and the append flag is on only if some token is
    [>>]. *)
Theorem redirections_need_operators :
  forall (tokens : list string) (cmd : Command),
    parse_command tokens = inl cmd ->
    (~ In "<" tokens -> in_file cmd = EmptyString)
    /\ (~ In ">" tokens -> ~ In ">>" tokens ->
        out_file cmd = EmptyString /\ append cmd = false)
    /\ (append cmd = true -> In ">>" tokens).
Proof.
  intros tokens cmd H.
  destruct (parse_command_success tokens cmd H)
    as (items & Hok & -> & -> & _ & _).
  destruct (fold_apply_item_defaults items Command_init Hok)
    as (Hin & Hout & Happ).
  split; [exact Hin|]. split; [exact Hout|].
  intros Ha. destruct (in_dec string_dec ">>" (flatten items)) as [Hi | Hn];
    [assumption|].
  specialize (Happ Hn Ha). discriminate.
Qed.

Lemma redirections_need_operators_witness :
  in_file (mkCommand ["ls"] EmptyString "out" true) = EmptyString
  /\ In ">>" ["ls"; ">>"; "out"].
Proof.
  destruct (redirections_need_operators ["ls"; ">>"; "out"]
              (mkCommand ["ls"] EmptyString "out" true) eq_refl)
    as (Hin & _ & Happ).
  split.
  - apply Hin. simpl. intros [H | [H | [H | []]]]; discriminate.
  - apply Happ. reflexivity.
Defined.

(** ** The executor, in general *)

Lemma WEXITSTATUS_range (status : Z) : (0 <= WEXITSTATUS status <= 255)%Z.
Proof.
  unfold WEXITSTATUS. rewrite Z.shiftr_land.
  change (Z.shiftr 65280 8) with (Z.ones 8).
  rewrite Z.land_ones by lia.
  pose proof (Z.mod_pos_bound (Z.shiftr status 8) (2 ^ 8) ltac:(lia)) as H.
  change (2 ^ 8)%Z with 256%Z in *. lia.
Qed.

(** X13.  Whatever the operating system answers and however the child
    ends, the status [run_external] returns is between 0 and 255. *)
Theorem run_external_status_range :
  forall (sys : Sys) (cmd : Command),
    (0 <= fst (run_external sys cmd) <= 255)%Z.
Proof.
  intros sys cmd. unfold run_external.
  destruct (fork_ok sys); cbn [negb fst]; [|lia].
  destruct (waitpid_ok sys); cbn [negb fst]; [|lia].
  destruct (WIFEXITED (wait_status (child sys cmd))); [|lia].
  apply WEXITSTATUS_range.
Qed.

(** X14.  The program is loaded only with every requested redirection
    in place: if the child calls [execvp], it does so with the argv of
    the command, and each file that was asked for was opened and
    installed with success.  When the input redirection fails, the
    output file is not touched: the only [open] of the child is the
    read-only one. *)
Theorem load_follows_redirection :
  forall (sys : Sys) (cmd : Command),
    (forall args,
        In (CExecvp args) (child_calls sys cmd) ->
        args = argv cmd
        /\ (empty (in_file cmd) = false ->
            open_ok sys (in_file cmd) O_RDONLY = true
            /\ dup2_ok sys STDIN_FILENO = true)
        /\ (empty (out_file cmd) = false ->
            open_ok sys (out_file cmd)
              (Z.lor (Z.lor O_WRONLY O_CREAT)
                     (if append cmd then O_APPEND else O_TRUNC)) = true
            /\ dup2_ok sys STDOUT_FILENO = true))
    /\ (empty (in_file cmd) = false ->
        open_ok sys (in_file cmd) O_RDONLY = false
        \/ dup2_ok sys STDIN_FILENO = false ->
        forall path flags mode,
          In (COpen path flags mode) (child_calls sys cmd) ->
          path = in_file cmd /\ flags = O_RDONLY /\ mode = None).
Proof.
  intros sys cmd. unfold child_calls. cbv zeta. split.
  - intros args.
    destruct (empty (in_file cmd)), (empty (out_file cmd)); cbn [negb];
      repeat match goal with
             | |- context [open_ok sys ?p ?f] =>
                 destruct (open_ok sys p f) eqn:?
             | |- context [dup2_ok sys ?t] => destruct (dup2_ok sys t) eqn:?
             | |- context [execvp sys ?a] => destruct (execvp sys a) eqn:?
             end;
      cbn [negb In]; intros H;
      repeat match goal with
             | H : _ \/ _ |- _ => destruct H as [H | H]
             | H : False |- _ => destruct H
             | H : CExecvp _ = CExecvp _ |- _ => injection H as <-
             | H : _ = CExecvp _ |- _ => discriminate H
             end;
      repeat split; intros; try discriminate; auto.
  - intros He Hfail path flags mode. rewrite He. cbn [negb].
    destruct (open_ok sys (in_file cmd) O_RDONLY) eqn:Eo; cbn [negb In].
    + destruct Hfail as [Hfail | Hfail]; [discriminate|].
      rewrite Hfail. cbn [negb In].
      intros [H | [H | [H | [H | []]]]]; try discriminate H.
      injection H as <- <- <-. repeat split.
    + intros [H | [H | [H | []]]]; try discriminate H.
      injection H as <- <- <-. repeat split.
Qed.

Lemma load_follows_redirection_witness :
  open_ok sys_demo "in" O_RDONLY = true
  /\ (forall path flags mode,
         In (COpen path flags mode)
            (child_calls sys_demo (mkCommand ["ls"] "missing" "out" false)) ->
         path = "missing" /\ flags = O_RDONLY /\ mode = None).
Proof.
  split.
  - destruct (load_follows_redirection sys_demo
                (mkCommand ["ls"] "in" "out" false)) as [H _].
    destruct (H ["ls"]) as (_ & Hin & _).
    + cbn. right. right. right. right. right. right. left. reflexivity.
    + apply Hin. reflexivity.
  - destruct (load_follows_redirection sys_demo
                (mkCommand ["ls"] "missing" "out" false)) as [_ H].
    apply H; [reflexivity | left; reflexivity].
Defined.

(** X15.  The child ends in one of two ways.  Either its last two calls
    are a [perror] and [_exit(127)], and then it exits with 127; or its
    last call is the [execvp] of the command's argv, it reports nothing
    and does not call [_exit], and it ends as the loaded program does. *)
Theorem child_ends :
  forall (sys : Sys) (cmd : Command),
    (exists calls tag,
        child_calls sys cmd = (calls ++ [CPerror tag; CExit 127])%list
        /\ child sys cmd = Exited 127)
    \/ (exists calls e,
          child_calls sys cmd = (calls ++ [CExecvp (argv cmd)])%list
          /\ (forall c, In c calls ->
                        match c with
                        | CPerror _ | CExit _ | CExecvp _ => False
                        | _ => True
                        end)
          /\ execvp sys (argv cmd) = Some e
          /\ child sys cmd = e).
Proof.
  intros sys cmd. unfold child_calls, child. cbv zeta.
  destruct (empty (in_file cmd)), (empty (out_file cmd)); cbn [negb];
    repeat match goal with
           | |- context [open_ok sys ?p ?f] => destruct (open_ok sys p f)
           | |- context [dup2_ok sys ?t] => destruct (dup2_ok sys t)
           | |- context [execvp sys ?a] => destruct (execvp sys a) eqn:?
           end;
    cbn [negb];
    match goal with
    | |- (exists calls tag, ?l = @?R calls tag /\ _) \/ _ =>
        first
          [ left; exists (removelast (removelast l)); eexists;
            split; reflexivity
          | right; exists (removelast l); eexists;
            split; [reflexivity|];
            split; [cbn; intros call Hcall;
                    repeat match goal with
                           | H : _ \/ _ |- _ => destruct H as [H | H]
                           | H : False |- _ => destruct H
                           | H : _ = call |- _ => subst call
                           end; exact I
                   | split; reflexivity] ]
    end.
Qed.

Lemma child_ends_witness :
  (exists calls tag,
      child_calls sys_demo (mkCommand ["ls"] "missing" EmptyString false)
      = (calls ++ [CPerror tag; CExit 127])%list
      /\ child sys_demo (mkCommand ["ls"] "missing" EmptyString false)
         = Exited 127)
  \/ (exists calls e,
        child_calls sys_demo (mkCommand ["ls"] "missing" EmptyString false)
        = (calls ++ [CExecvp ["ls"]])%list
        /\ (forall c, In c calls ->
                      match c with
                      | CPerror _ | CExit _ | CExecvp _ => False
                      | _ => True
                      end)
        /\ execvp sys_demo ["ls"] = Some e
        /\ child sys_demo (mkCommand ["ls"] "missing" EmptyString false) = e).
Proof.
  exact (child_ends sys_demo (mkCommand ["ls"] "missing" EmptyString false)).
Defined.

Lemma parse_loop_no_operator_app (tokens : list string) :
  forall cmd rest,
    forallb (fun t => negb (is_redir t)) tokens = true ->
    parse_loop cmd (tokens ++ rest)
    = parse_loop (mkCommand (argv cmd ++ tokens) (in_file cmd) (out_file cmd)
                    (append cmd)) rest.
Proof.
  induction tokens as [|t tokens IH]; intros cmd rest H.
  - simpl. rewrite app_nil_r. now destruct cmd.
  - simpl in H. apply andb_true_iff in H as [Ht H].
    apply negb_true_iff in Ht. simpl. rewrite Ht.
    rewrite (IH _ _ H). simpl. now rewrite <- app_assoc.
Qed.

Lemma expand_operator (env : Env) (op : string) :
  is_redir op = true -> expand_env_in_token env op = op.
Proof.
  unfold is_redir. intros H.
  apply orb_true_iff in H as [H | H];
    [apply orb_true_iff in H as [H | H]|];
    apply String.eqb_eq in H; subst op; reflexivity.
Qed.

(** X16.  A redirection whose file name expands to nothing is dropped
    without a word.  Take arguments that expand to no operator, then an
    operator, then a token whose expansion is empty (an unset variable,
    say): the line parses, argv is the expanded arguments, both file
    names of the command are empty, and the child opens no file before
    it loads the program. *)
Theorem empty_file_name_drops_redirection :
  forall (env : Env) (sys : Sys) (args : list string) (op file : string),
    args <> [] ->
    forallb (fun t => negb (is_redir t)) (expand_env env args) = true ->
    is_redir op = true ->
    expand_env_in_token env file = EmptyString ->
    exists cmd,
      parse_command (expand_env env (args ++ [op; file])) = inl cmd
      /\ argv cmd = expand_env env args
      /\ in_file cmd = EmptyString
      /\ out_file cmd = EmptyString
      /\ forall path flags mode,
           ~ In (COpen path flags mode) (child_calls sys cmd).
Proof.
  intros env sys args op file Hne Hargs Hop Hfile.
  assert (Hparse :
            parse_command (expand_env env (args ++ [op; file]))
            = inl (if op =? "<"
                   then mkCommand (expand_env env args) EmptyString
                          EmptyString false
                   else mkCommand (expand_env env args) EmptyString
                          EmptyString (op =? ">>"))).
  { unfold expand_env in *. rewrite map_app. cbn [map].
    rewrite Hfile, (expand_operator env op Hop).
    unfold parse_command.
    rewrite (parse_loop_no_operator_app _ Command_init _ Hargs).
    cbn [parse_loop argv in_file out_file append Command_init app].
    rewrite Hop.
    destruct args as [|a args]; [contradiction|].
    destruct (op =? "<"); reflexivity. }
  eexists. split; [exact Hparse|].
  destruct (op =? "<"); cbn [argv in_file out_file];
    (split; [reflexivity|]); (split; [reflexivity|]);
    (split; [reflexivity|]);
    intros path flags mode; unfold child_calls; cbn;
    destruct (execvp sys (expand_env env args)); cbn;
    intuition discriminate.
Qed.

Lemma empty_file_name_drops_redirection_witness :
  exists cmd,
    parse_command (expand_env [] (["cat"; "-n"] ++ ["<"; "$INPUT"])) = inl cmd
    /\ argv cmd = expand_env [] ["cat"; "-n"]
    /\ in_file cmd = EmptyString
    /\ out_file cmd = EmptyString
    /\ forall path flags mode,
         ~ In (COpen path flags mode) (child_calls sys_demo cmd).
Proof.
  apply (empty_file_name_drops_redirection [] sys_demo ["cat"; "-n"] "<" "$INPUT");
    [discriminate | reflexivity | reflexivity | reflexivity].
Defined.

(** ** The interpreter loop, in general *)

Lemma process_line_exit (env : Env) (history : list string) (line : string) :
  snd (process_line env history line) = Ran ActExit
  <-> is_exit_line env line = true.
Proof.
  unfold process_line, is_exit_line.
  destruct (is_all_spaces line) eqn:Hsp.
  - rewrite (parse_blank env line Hsp). cbn. split; discriminate.
  - destruct (parse_command (expand_env env (tokenize line))) as [cmd | err];
      cbn [snd]; [|split; discriminate].
    unfold dispatch.
    destruct (hd EmptyString (argv cmd) =? "exit"); [split; reflexivity|].
    split; [|discriminate].
    repeat match goal with
           | |- Ran (if ?b then _ else _) = _ -> _ => destruct b
           end; discriminate.
Qed.

Lemma main_loop_cons (env : Env) (h : list string) (line : string)
    (stdin : list string) :
  main_loop env h (line :: stdin)
  = if is_exit_line env line then [process_line env h line]
    else process_line env h line
         :: main_loop env (fst (process_line env h line)) stdin.
Proof.
  cbn [main_loop]. cbv zeta.
  destruct (is_exit_line env line) eqn:E.
  - apply (process_line_exit env h line) in E. now rewrite E.
  - destruct (snd (process_line env h line)) as [| |a] eqn:Eo; try reflexivity.
    destruct a; try reflexivity.
    apply (process_line_exit env h line) in Eo. congruence.
Qed.

(** X17.  Nothing is read after an exit.  When a line parses into a
    command whose first word is [exit], whatever its other words and
    redirections, the loop ends with that line: the lines after it have
    no effect on the trace. *)
Theorem exit_ends_the_loop :
  forall (env : Env) (line : string),
    is_exit_line env line = true ->
    forall (history pre post : list string),
      main_loop env history (pre ++ line :: post)
      = main_loop env history (pre ++ [line]).
Proof.
  intros env line Hexit history pre. revert history.
  induction pre as [|l pre IH]; intros history post.
  - cbn [app]. rewrite !main_loop_cons. now rewrite Hexit.
  - cbn [app]. rewrite !main_loop_cons.
    destruct (is_exit_line env l); [reflexivity|].
    now rewrite IH.
Qed.

Lemma exit_ends_the_loop_witness :
  main_loop [] [] (["ls"] ++ "exit 3 > f" :: ["pwd"; "history"])
  = main_loop [] [] (["ls"] ++ ["exit 3 > f"]).
Proof.
  apply (exit_ends_the_loop [] "exit 3 > f"). reflexivity.
Defined.

Lemma last_cons_default {A : Type} (l : list A) :
  forall a d, last (a :: l) d = last l a.
Proof.
  induction l as [|x l IH]; intros a d; [reflexivity|].
  change (last (a :: x :: l) d) with (last (x :: l) d).
  now rewrite (IH x d), (IH x a).
Qed.

(** X18.  The loop reads no line twice and, without an exit, reads them
    all: the trace is never longer than the input, and when no line is
    an exit it has one entry per line and ends with the history that the
    lines leave one after the other. *)
Theorem loop_reads_every_line :
  forall (env : Env) (stdin history : list string),
    (List.length (main_loop env history stdin) <= List.length stdin)%nat
    /\ (forallb (fun l => negb (is_exit_line env l)) stdin = true ->
        List.length (main_loop env history stdin) = List.length stdin
        /\ last (map fst (main_loop env history stdin)) history
           = history_after env history stdin).
Proof.
  intros env stdin. induction stdin as [|line stdin IH]; intros history.
  - split; [simpl; lia | intros _; split; reflexivity].
  - rewrite main_loop_cons. split.
    + destruct (is_exit_line env line); cbn [List.length].
      * lia.
      * destruct (IH (fst (process_line env history line))) as [Hle _]. lia.
    + intros H. cbn [forallb] in H. apply andb_true_iff in H as [Hl H].
      apply negb_true_iff in Hl. rewrite Hl.
      destruct (IH (fst (process_line env history line))) as [_ IH2].
      destruct (IH2 H) as [Hlen Hlast]. cbn [List.length map]. split.
      * now rewrite Hlen.
      * unfold history_after in *. cbn [fold_left]. rewrite <- Hlast.
        apply last_cons_default.
Qed.

Lemma loop_reads_every_line_witness :
  List.length (main_loop [] [] ["ls"; "  "; "cat <"; "history"]) = 4%nat
  /\ last (map fst (main_loop [] [] ["ls"; "  "; "cat <"; "history"])) []
     = history_after [] [] ["ls"; "  "; "cat <"; "history"].
Proof.
  apply (loop_reads_every_line [] ["ls"; "  "; "cat <"; "history"] []).
  reflexivity.
Defined.

(** X19.  A line that is skipped leaves no trace in the history: the
    history after any lines is the history after those of them that
    parse. *)
Theorem skipped_lines_leave_no_trace :
  forall (env : Env) (lines history : list string),
    history_after env history lines
    = history_after env history (filter (parse_ok env) lines).
Proof.
  intros env lines. induction lines as [|line lines IH]; intros history;
    [reflexivity|].
  unfold history_after in *. cbn [fold_left filter].
  rewrite process_line_history.
  destruct (parse_ok env line) eqn:E.
  - cbn [fold_left]. rewrite process_line_history, E. apply IH.
  - apply IH.
Qed.

Lemma last_tl_snoc {A : Type} (l : list A) (x d : A) :
  l <> [] -> last (tl (l ++ [x])) d = x.
Proof.
  intros H. destruct l as [|a l]; [contradiction|].
  cbn [app tl]. apply last_last.
Qed.

(** X20.  The line just accepted is the newest entry: after a line that
    parses, the last entry of the history is that line, whatever the
    history was before, also when the oldest entry had to go. *)
Theorem newest_entry_is_last :
  forall (env : Env) (history : list string) (line : string),
    parse_ok env line = true ->
    last (fst (process_line env history line)) EmptyString = line.
Proof.
  intros env history line H. rewrite process_line_history, H.
  unfold history_push.
  destruct (Nat.ltb_spec 200 (List.length (history ++ [line])%list));
    [|apply last_last].
  apply last_tl_snoc. intros ->. simpl in *. lia.
Qed.

Lemma newest_entry_is_last_witness :
  last (fst (process_line [] (repeat "ls" 200) "pwd > f")) EmptyString
  = "pwd > f".
Proof. apply (newest_entry_is_last [] (repeat "ls" 200) "pwd > f"). reflexivity. Defined.

(** ** Escaping for double quotes *)

Lemma tok_loop_dq_escape (w : string) :
  forall toks cur rest,
    tok_loop toks cur false true (dq_escape w ++ String dquote rest)
    = tok_loop toks (cur ++ w) false false rest.
Proof.
  induction w as [|c w IH]; intros toks cur rest.
  - rewrite append_nil_r. simpl. destruct rest; reflexivity.
  - rewrite <- (push_back_append cur c w), <- IH.
    cbn [dq_escape].
    destruct (Ascii.eqb c dquote) eqn:Eq.
    + apply Ascii.eqb_eq in Eq. subst c. reflexivity.
    + destruct (Ascii.eqb c backslash) eqn:Eb.
      * apply Ascii.eqb_eq in Eb. subst c. reflexivity.
      * cbn [orb String.append tok_loop]. cbv zeta. rewrite Eq, Eb.
        cbn [andb]. destruct (dq_escape w ++ String dquote rest); reflexivity.
Qed.

(** Tokens already emitted stay in front of the result. *)
Lemma tok_loop_prefix (line : string) :
  forall done toks cur in_single in_double,
    tok_loop (done ++ toks) cur in_single in_double line
    = (done ++ tok_loop toks cur in_single in_double line)%list.
Proof.
  assert (G : forall n line done toks cur in_single in_double,
             (String.length line <= n)%nat ->
             tok_loop (done ++ toks) cur in_single in_double line
             = (done ++ tok_loop toks cur in_single in_double line)%list).
  { induction n as [|n IH]; intros l done toks cur s d Hlen.
    - destruct l; [|simpl in Hlen; lia].
      simpl. destruct (empty cur); simpl; [reflexivity|].
      now rewrite app_assoc.
    - destruct l as [|c rest].
      + simpl. destruct (empty cur); simpl; [reflexivity|].
        now rewrite app_assoc.
      + cbn [String.length] in Hlen.
        assert (Hrest : (String.length rest <= n)%nat) by lia.
        cbn [tok_loop]. cbv zeta.
        destruct d.
        * destruct rest as [|nxt rest'].
          -- destruct (Ascii.eqb c dquote); apply IH; auto.
          -- destruct (Ascii.eqb c backslash
                       && (Ascii.eqb nxt dquote || Ascii.eqb nxt backslash)).
             ++ apply IH. cbn [String.length] in Hrest. lia.
             ++ destruct (Ascii.eqb c dquote); apply IH; auto.
        * destruct s.
          -- destruct (Ascii.eqb c squote); apply IH; auto.
          -- destruct (isspace c).
             ++ destruct (empty cur); cbn [negb]; [apply IH; auto|].
                rewrite <- app_assoc. apply IH; auto.
             ++ destruct (Ascii.eqb c dquote); [apply IH; auto|].
                destruct (Ascii.eqb c squote); apply IH; auto. }
  intros done toks cur s d. apply (G (String.length line)). lia.
Qed.

(** X21.  Any text can be written as one token: put it between double
    quotes with a backslash before each double quote and each backslash.
    Wherever the tokenizer is outside quotes, it reads that back as the
    text itself, white space, single quotes and [$] included, appended
    to the current token.  At the end of the line the result is the
    tokens so far followed by the current token with the text; and a
    line that starts with the escaped text in quotes and a space has the
    text as its first token, followed by the tokens of the rest. *)
Theorem dq_escape_round_trip :
  forall (toks : list string) (cur w rest : string),
    tok_loop toks cur false false
      (String dquote (dq_escape w ++ String dquote rest))
    = tok_loop toks (cur ++ w) false false rest
    /\ tok_loop toks cur false false
         (String dquote (dq_escape w ++ String dquote EmptyString))
       = (if empty (cur ++ w) then toks
          else (toks ++ [(cur ++ w)%string])%list)
    /\ tokenize (String dquote (dq_escape w ++ String dquote (String " " rest)))
       = (if empty w then tokenize rest else w :: tokenize rest).
Proof.
  intros toks cur w rest.
  assert (H : forall toks cur rest,
             tok_loop toks cur false false
               (String dquote (dq_escape w ++ String dquote rest))
             = tok_loop toks (cur ++ w) false false rest).
  { intros toks0 cur0 rest0. rewrite <- tok_loop_dq_escape. reflexivity. }
  split; [apply H|]. split.
  - rewrite H. apply tok_loop_end.
  - unfold tokenize. rewrite H. cbn [String.append tok_loop].
    replace (isspace " ") with true by reflexivity.
    destruct (empty w) eqn:E; cbn [negb].
    + now rewrite (empty_true w E).
    + apply (tok_loop_prefix rest [w] [] EmptyString false false).
Qed.

(** ** Expansion before parsing *)




